(** * Remal_CommonUtils: numeric converters, format scanner and logger gate

    A shallow embedding of [src/Remal_CommonUtils.cpp].  Machine integers are
    [Z] with their wrap-around written out, characters are their 8-bit codes,
    a [char*] destination is the memory seen from that pointer (a map from
    offsets to bytes), and [double] is the binary64 type of the kernel. *)

From Stdlib Require Import Ascii String.
From Stdlib Require Import ZArith List Lia Bool Floats Uint63.
Import ListNotations.
Open Scope bool_scope.
Open Scope Z_scope.

(** ** Machine integers and characters *)

Definition uint8 (z : Z) : Z := z mod 256.
Definition uint32 (z : Z) : Z := z mod 2 ^ 32.
Definition int32 (z : Z) : Z := (z + 2 ^ 31) mod 2 ^ 32 - 2 ^ 31.

Definition code (c : ascii) : Z := Z.of_nat (nat_of_ascii c).

Fixpoint codes (s : string) : list Z :=
  match s with
  | EmptyString => []
  | String c s' => code c :: codes s'
  end.

(** Indexing a string literal; the byte after the last character is the
    terminator. *)
Definition char_at (s : string) (i : Z) : Z :=
  nth (Z.to_nat i) (codes s) 0.

(** ** Character buffers

    [ResultBuff] is a bare pointer: the functions receive the capacity as a
    separate number and nothing stops a store beyond it.  A buffer is therefore
    the memory starting at the pointer, indexed by offset. *)

Definition buffer := Z -> Z.

Definition store (b : buffer) (i c : Z) : buffer :=
  fun j => if j =? i then c else b j.

Fixpoint store_list (b : buffer) (i : Z) (l : list Z) : buffer :=
  match l with
  | [] => b
  | c :: l' => store_list (store b i c) (i + 1) l'
  end.

(** The [n] bytes starting at offset [i]. *)
Fixpoint load (n : nat) (b : buffer) (i : Z) : list Z :=
  match n with
  | O => []
  | S n' => b i :: load n' b (i + 1)
  end.

(** The terminated string starting at offset [i], when a terminator is found
    within [fuel] bytes. *)
Fixpoint c_str (fuel : nat) (b : buffer) (i : Z) : option (list Z) :=
  match fuel with
  | O => None
  | S fuel' =>
      if b i =? 0 then Some []
      else option_map (cons (b i)) (c_str fuel' b (i + 1))
  end.

(** ** RML_COMM_utoa *)

Definition digit_table : string :=
  "ZYXWVUTSRQPONMLKJIHGFEDCBA9876543210123456789ABCDEFGHIJKLMNOPQRSTUVWXYZ".

(** Iterations granted to the digit loops; a 32-bit value has at most 32
    digits in any base. *)
Definition digit_fuel : nat := 32.

(** The do-while loop of lines 537-544: one digit per iteration, least
    significant first, stored through [ptr] with no regard for the capacity. *)
Fixpoint utoa_digits (fuel : nat) (Value Base : Z) (b : buffer) (ptr : Z)
  : option (buffer * Z) :=
  match fuel with
  | O => None
  | S fuel' =>
      let tmp_value := Value in
      let Value := uint32 (Value / Base) in
      let b := store b ptr
                 (char_at digit_table
                    (uint32 (35 + uint32 (tmp_value - uint32 (Value * Base))))) in
      let ptr := ptr + 1 in
      if Value =? 0 then Some (b, ptr) else utoa_digits fuel' Value Base b ptr
  end.

(** The in-place reversal of lines 558-563 (and 619-624): the two pointers
    walk towards each other; the final position of [ptr] is kept because the
    function returns it. *)
Fixpoint reverse_ptrs (fuel : nat) (b : buffer) (ptr1 ptr : Z)
  : option (buffer * Z) :=
  if ptr1 <? ptr then
    match fuel with
    | O => None
    | S fuel' =>
        let tmp_char := b ptr in
        let b := store b ptr (b ptr1) in
        let ptr := ptr - 1 in
        let b := store b ptr1 tmp_char in
        let ptr1 := ptr1 + 1 in
        reverse_ptrs fuel' b ptr1 ptr
    end
  else Some (b, ptr).

(** The part shared by both integer converters once the digits (and sign)
    are in place: capacity check, terminator, reversal, return value. *)
Definition finish_itoa (b : buffer) (ptr ResultBuff_Size : Z) : option (Z * buffer) :=
  if ptr >=? ResultBuff_Size then Some (-1, store b 0 0)
  else
    let b := store b ptr 0 in
    let ptr := ptr - 1 in
    match reverse_ptrs (Z.to_nat (ptr + 1)) b 0 ptr with
    | Some (b, ptr) => Some (ptr, b)
    | None => None
    end.

Definition RML_COMM_utoa (Value : Z) (ResultBuff : buffer) (ResultBuff_Size Base : Z)
  : option (Z * buffer) :=
  if (Base <? 2) || (Base >? 36) then Some (-1, store ResultBuff 0 0)
  else
    match utoa_digits digit_fuel Value Base ResultBuff 0 with
    | None => None
    | Some (b, ptr) => finish_itoa b ptr ResultBuff_Size
    end.

(** ** RML_COMM_itoa *)

(** Lines 591-598: the same loop on a signed value; [/] truncates towards
    zero, so the remainder of a negative value is negative and selects the
    mirrored half of the table. *)
Fixpoint itoa_digits (fuel : nat) (Value Base : Z) (b : buffer) (ptr : Z)
  : option (buffer * Z) :=
  match fuel with
  | O => None
  | S fuel' =>
      let tmp_value := Value in
      let Value := int32 (Z.quot Value Base) in
      let b := store b ptr
                 (char_at digit_table (35 + int32 (tmp_value - int32 (Value * Base)))) in
      let ptr := ptr + 1 in
      if Value =? 0 then Some (b, ptr) else itoa_digits fuel' Value Base b ptr
  end.

Definition RML_COMM_itoa (Value : Z) (ResultBuff : buffer) (ResultBuff_Size Base : Z)
  : option (Z * buffer) :=
  if (Base <? 2) || (Base >? 36) then Some (-1, store ResultBuff 0 0)
  else
    let tmp_value2 := Value in
    match itoa_digits digit_fuel Value Base ResultBuff 0 with
    | None => None
    | Some (b, ptr) =>
        let '(b, ptr) :=
          if (tmp_value2 <? 0) && (Base =? 10)
          then (store b ptr (code "-"), ptr + 1) else (b, ptr) in
        finish_itoa b ptr ResultBuff_Size
    end.

(** What a call returned, and the terminated string it left in the buffer. *)
Definition returned (r : option (Z * buffer)) : option Z := option_map fst r.

Definition stored (r : option (Z * buffer)) : option (list Z) :=
  match r with
  | Some (_, b) => c_str 64 b 0
  | None => None
  end.

(** ** RML_COMM_ReverseString *)

(** The for loop of lines 637-642 with its two unsigned indices. *)
Fixpoint reverse_loop (fuel : nat) (Str : buffer) (i j : Z) : option buffer :=
  if i <? j then
    match fuel with
    | O => None
    | S fuel' =>
        let temp := Str i in
        let Str := store Str i (Str j) in
        let Str := store Str j temp in
        reverse_loop fuel' Str (uint32 (i + 1)) (uint32 (j - 1))
    end
  else Some Str.

Definition RML_COMM_ReverseString (Str : buffer) (Length : Z) : option buffer :=
  reverse_loop (Z.to_nat Length) Str 0 (uint32 (Length - 1)).

(** ** RML_COMM_ftoa *)

(** Control flow inside a function body: fall through with a value, leave
    through a [return], or have no defined behaviour (a conversion of a
    double that does not fit [int32_t], or an exhausted loop bound). *)
Inductive flow (A : Type) : Type :=
| Next (a : A)
| Return (r : Z) (b : buffer)
| Stuck.
Arguments Next {A} a.
Arguments Return {A} r b.
Arguments Stuck {A}.

Definition bind {A B} (m : flow A) (k : A -> flow B) : flow B :=
  match m with
  | Next a => k a
  | Return r b => Return r b
  | Stuck => Stuck
  end.

Notation "x <- m ;; k" := (bind m (fun x => k))
  (at level 61, m at next level, right associativity).
Notation "' p <- m ;; k" := (bind m (fun x => let 'p := x in k))
  (at level 61, p pattern, m at next level, right associativity).

Definition run (m : flow (Z * buffer)) : option (Z * buffer) :=
  match m with
  | Next rb => Some rb
  | Return r b => Some (r, b)
  | Stuck => None
  end.

(** Truncation towards zero of a binary64 value. *)
Definition trunc_SF (x : spec_float) : option Z :=
  match x with
  | S754_zero _ => Some 0
  | S754_finite s m e =>
      let mag := if 0 <=? e then Zpos m * 2 ^ e else Zpos m / 2 ^ (- e) in
      Some (if s then - mag else mag)
  | _ => None
  end.

(** [(int32_t)x]: defined only when the truncated value is representable. *)
Definition cast_int32 (x : float) : option Z :=
  match trunc_SF (Prim2SF x) with
  | Some z => if (- 2 ^ 31 <=? z) && (z <? 2 ^ 31) then Some z else None
  | None => None
  end.

(** The implicit conversion of an [int32_t] operand to [double] (exact). *)
Definition double_of_int32 (z : Z) : float :=
  if z <? 0 then PrimFloat.opp (PrimFloat.of_uint63 (Uint63.of_Z (- z)))
  else PrimFloat.of_uint63 (Uint63.of_Z z).

(** Lines 664-676: the digits of the whole part, least significant first,
    each store guarded by the capacity. *)
Fixpoint ftoa_whole (fuel : nat) (WholePart : Z) (b : buffer) (i BuffSize : Z)
  : flow (buffer * Z) :=
  match fuel with
  | O => Stuck
  | S fuel' =>
      if i <? BuffSize then
        let b := store b i (uint8 (Z.rem WholePart 10 + code "0")) in
        let i := uint32 (i + 1) in
        let WholePart := Z.quot WholePart 10 in
        if WholePart >? 0 then ftoa_whole fuel' WholePart b i BuffSize
        else Next (b, i)
      else Return (-1) (store b 0 0)
  end.

(** Lines 678-681: the sign is appended only when there is room for it. *)
Definition ftoa_sign (NegativeFlag : Z) (b : buffer) (i BuffSize : Z) : buffer * Z :=
  if negb (NegativeFlag =? 0) && (i <? BuffSize)
  then (store b i (code "-"), uint32 (i + 1))
  else (b, i).

(** Lines 701-715: [n] fractional digits by multiply and truncate. *)
Fixpoint ftoa_fraction (n : nat) (FractionalPart : float) (b : buffer) (i BuffSize : Z)
  : flow (buffer * Z) :=
  match n with
  | O => Next (b, i)
  | S n' =>
      let FractionalPart := PrimFloat.mul FractionalPart 10 in
      match cast_int32 FractionalPart with
      | None => Stuck
      | Some digit =>
          if i <? BuffSize then
            let b := store b i (uint8 (digit + code "0")) in
            let i := uint32 (i + 1) in
            let FractionalPart := PrimFloat.sub FractionalPart (double_of_int32 digit) in
            ftoa_fraction n' FractionalPart b i BuffSize
          else Return (-1) (store b 0 0)
      end
  end.

(** Lines 688-716: the decimal point and the fractional digits. *)
Definition ftoa_point (Afterpoint : Z) (FractionalPart : float) (b : buffer) (i BuffSize : Z)
  : flow (buffer * Z) :=
  if Afterpoint >? 0 then
    if i <? BuffSize then
      ftoa_fraction (Z.to_nat Afterpoint) FractionalPart
        (store b i (code ".")) (uint32 (i + 1)) BuffSize
    else Return (-1) (store b i 0)
  else Next (b, i).

(** Lines 719-728: the terminator and the returned length. *)
Definition ftoa_finish (b : buffer) (i BuffSize : Z) : Z * buffer :=
  (int32 i, if uint32 (i + 1) >? BuffSize then store b 0 0 else store b i 0).

Definition RML_COMM_ftoa (Value : float) (ResultBuff : buffer) (BuffSize Afterpoint : Z)
  : option (Z * buffer) :=
  match cast_int32 Value with
  | None => None
  | Some WholePart =>
      let FractionalPart := PrimFloat.sub Value (double_of_int32 WholePart) in
      let i := 0 in
      let NegativeFlag := 0 in
      let '(NegativeFlag, WholePart, FractionalPart) :=
        if WholePart <? 0
        then (1, int32 (- WholePart), PrimFloat.opp FractionalPart)
        else (NegativeFlag, WholePart, FractionalPart) in
      run ('(b, i) <- ftoa_whole digit_fuel WholePart ResultBuff i BuffSize ;;
           let '(b, i) := ftoa_sign NegativeFlag b i BuffSize in
           b <- match RML_COMM_ReverseString b i with
                | Some b => Next b
                | None => Stuck
                end ;;
           '(b, i) <- ftoa_point Afterpoint FractionalPart b i BuffSize ;;
           Next (ftoa_finish b i BuffSize))
  end.

(** ** The format scanner: RML_COMM_vprintf

    The sink ([PUTCHAR_FUNC], [PUTCHAR_N_FUNC]) is the sequence of characters
    written so far.  A variadic argument is a string, a 32-bit integer (read
    as [int], [uint32_t] or [int32_t]) or a double. *)

Inductive va_item : Type :=
| VaStr (s : list Z)
| VaInt (n : Z)
| VaDouble (x : float).

(** How a scan ends: the loop returned, or the execution left defined
    behaviour (an argument missing or of another kind, a read past the
    terminator of the format, a conversion with no defined result). *)
Inductive ending : Type := Returned | Undefined.

Definition out : Type := list Z * ending.

Definition emit (cs : list Z) (r : out) : out := (cs ++ fst r, snd r).

(** A conversion into [IntStr] followed by [PUTCHAR_N_FUNC IntStr)]. *)
Definition put_conv (r : option (Z * buffer)) (k : buffer -> out) : out :=
  match r with
  | Some (_, IntStr) =>
      match c_str 20 IntStr 0 with
      | Some s => emit s (k IntStr)
      | None => ([], Undefined)
      end
  | None => ([], Undefined)
  end.

(** [InputStr] holds the characters in front of the terminator; [IntStr] is
    the local array, whose first contents are indeterminate. *)
Fixpoint vprintf_scan (InputStr : list Z) (VaList : list va_item) (IntStr : buffer)
  {struct InputStr} : out :=
  match InputStr with
  | [] => ([], Returned)
  | c :: rest =>
    if c =? 0 then ([], Returned)
    else if c =? code "%" then
      match rest with
      | [] => ([], Returned)
      | s :: rest1 =>
        if s =? code "s" then
          match VaList with
          | VaStr StringArg :: va => emit StringArg (vprintf_scan rest1 va IntStr)
          | _ => ([], Undefined)
          end
        else if s =? code "c" then
          match VaList with
          | VaInt CharArg :: va => emit [uint8 CharArg] (vprintf_scan rest1 va IntStr)
          | _ => ([], Undefined)
          end
        else if s =? code "u" then
          match VaList with
          | VaInt UnsignedArg :: va =>
              put_conv (RML_COMM_utoa (uint32 UnsignedArg) IntStr 20 10)
                       (vprintf_scan rest1 va)
          | _ => ([], Undefined)
          end
        else if (s =? code "i") || (s =? code "d") then
          match VaList with
          | VaInt SignedArg :: va =>
              put_conv (RML_COMM_itoa (int32 SignedArg) IntStr 20 10)
                       (vprintf_scan rest1 va)
          | _ => ([], Undefined)
          end
        else if s =? code "%" then
          emit [code "%"] (vprintf_scan rest1 VaList IntStr)
        else if (s =? code "X") || (s =? code "x") then
          match VaList with
          | VaInt UnsignedArg :: va =>
              put_conv (RML_COMM_utoa (uint32 UnsignedArg) IntStr 20 16)
                       (vprintf_scan rest1 va)
          | _ => ([], Undefined)
          end
        else if s =? code "." then
          match rest1 with
          | [] => ([0], Undefined)
          | d :: rest2 =>
            if (code "1" <=? d) && (d <=? code "6") then
              match VaList with
              | VaDouble DoubleArg :: va =>
                  put_conv (RML_COMM_ftoa DoubleArg IntStr 20 (d - code "0"))
                    (fun IntStr =>
                       match rest2 with
                       | [] => ([], Undefined)
                       | _ :: rest3 => vprintf_scan rest3 va IntStr
                       end)
              | _ => ([], Undefined)
              end
            else emit [d] (vprintf_scan rest2 VaList IntStr)
          end
        else if s =? code "f" then
          match VaList with
          | VaDouble DoubleArg :: va =>
              put_conv (RML_COMM_ftoa DoubleArg IntStr 20 2) (vprintf_scan rest1 va)
          | _ => ([], Undefined)
          end
        else if s =? 0 then ([], Returned)
        else emit [code "%"; s] (vprintf_scan rest1 VaList IntStr)
      end
    else emit [c] (vprintf_scan rest VaList IntStr)
  end.

(** ** The logger state and its entry points *)

Record logger : Type := mkLogger {
  Logger_InitDone : Z;
  LogLevelsEnable : list Z;
  sink : list Z
}.

Definition MaxBaudrate : Z := 115200.

Definition power_on : logger := mkLogger 0 [1; 1; 1; 1; 1] [].

Definition put (st : logger) (cs : list Z) : logger :=
  mkLogger (Logger_InitDone st) (LogLevelsEnable st) (sink st ++ cs).

Definition RML_COMM_LoggerInit (st : logger) (BaudRate : Z) : Z * logger :=
  if (BaudRate >? MaxBaudrate) || (BaudRate =? 0) then (-1, st)
  else (0, mkLogger 1 (LogLevelsEnable st) (sink st)).

Definition RML_COMM_vprintf (st : logger) (InputStr : list Z) (VaList : list va_item)
  (IntStr : buffer) : logger * ending :=
  if Logger_InitDone st =? 0 then (st, Returned)
  else
    let '(cs, e) := vprintf_scan InputStr VaList IntStr in
    (put st cs, e).

Definition RML_COMM_printf (st : logger) (InputStr : list Z) (VaList : list va_item)
  (IntStr : buffer) : logger * ending :=
  if Logger_InitDone st =? 0 then (st, Returned)
  else RML_COMM_vprintf st InputStr VaList IntStr.

Definition e_DEBUG : Z := 0.
Definition e_INFO : Z := 1.
Definition e_WARNING : Z := 2.
Definition e_ERROR : Z := 3.
Definition e_FATAL : Z := 4.

(** [ENABLE_COLOR_SUPPORT] is 0 in the header: every colour is the empty
    string. *)
Definition ANSI_RESET : string := "".
Definition ANSI_RED : string := "".
Definition ANSI_GREEN : string := "".
Definition ANSI_YELLOW : string := "".
Definition ANSI_CYAN : string := "".
Definition ANSI_BOLDRED : string := "".

Definition LogLevel_Str : list string :=
  ["DEBUG"; "INFO"; "WARNING"; "ERROR"; "FATAL"]%string.

(** Lines 190-244: the colour of a level, [None] when the level is switched
    off, and whether the level is unknown. *)
Definition level_gate (st : logger) (LogLvl : Z) : option (string * bool) :=
  let enabled k := negb (nth k (LogLevelsEnable st) 0 =? 0) in
  if LogLvl =? e_DEBUG then if enabled 0%nat then Some (ANSI_CYAN, false) else None
  else if LogLvl =? e_INFO then if enabled 1%nat then Some (ANSI_GREEN, false) else None
  else if LogLvl =? e_WARNING then if enabled 2%nat then Some (ANSI_YELLOW, false) else None
  else if LogLvl =? e_ERROR then if enabled 3%nat then Some (ANSI_RED, false) else None
  else if LogLvl =? e_FATAL then if enabled 4%nat then Some (ANSI_BOLDRED, false) else None
  else Some (EmptyString, true).

Definition RML_COMM_LogMsg (st : logger) (Src : list Z) (LogLvl : Z) (Msg : list Z)
  (VaList : list va_item) (IntStr : buffer) : logger * ending :=
  if Logger_InitDone st =? 0 then (st, Returned)
  else
    match level_gate st LogLvl with
    | None => (st, Returned)
    | Some (ColorStr, LogLvlUnknown) =>
        let st := put st (codes ColorStr) in
        let st := put st (codes "> [") in
        let st :=
          if LogLvlUnknown then put st (codes "Unknown LogLvl?")
          else put st (codes (nth (Z.to_nat LogLvl) LogLevel_Str EmptyString)) in
        let st := put st (codes "] ") in
        let st := put st Src in
        let st := put st (codes ": ") in
        match RML_COMM_vprintf st Msg VaList IntStr with
        | (st, Returned) =>
            let st := put st (codes ANSI_RESET) in
            (put st [13; 10], Returned)
        | (st, Undefined) => (st, Undefined)
        end
    end.

Definition RML_COMM_LogLevelSet (st : logger) (LogLvl Enable : Z) : Z * logger :=
  if Logger_InitDone st =? 0 then (-1, st)
  else
    let Enable := if Enable >? 1 then 1 else Enable in
    let set k :=
      (0, mkLogger (Logger_InitDone st)
            (firstn k (LogLevelsEnable st) ++ Enable :: skipn (S k) (LogLevelsEnable st))
            (sink st)) in
    if LogLvl =? e_DEBUG then set 0%nat
    else if LogLvl =? e_INFO then set 1%nat
    else if LogLvl =? e_WARNING then set 2%nat
    else if LogLvl =? e_ERROR then set 3%nat
    else if LogLvl =? e_FATAL then set 4%nat
    else (-1, st).

(** A call of the public interface, and a run of such calls from a state. *)
Inductive call : Type :=
| CallInit (BaudRate : Z)
| CallLevelSet (LogLvl Enable : Z)
| CallPrintf (InputStr : list Z) (VaList : list va_item) (IntStr : buffer)
| CallVprintf (InputStr : list Z) (VaList : list va_item) (IntStr : buffer)
| CallLogMsg (Src : list Z) (LogLvl : Z) (Msg : list Z) (VaList : list va_item)
    (IntStr : buffer).

Definition do_call (st : logger) (c : call) : logger :=
  match c with
  | CallInit BaudRate => snd (RML_COMM_LoggerInit st BaudRate)
  | CallLevelSet LogLvl Enable => snd (RML_COMM_LogLevelSet st LogLvl Enable)
  | CallPrintf InputStr VaList IntStr => fst (RML_COMM_printf st InputStr VaList IntStr)
  | CallVprintf InputStr VaList IntStr => fst (RML_COMM_vprintf st InputStr VaList IntStr)
  | CallLogMsg Src LogLvl Msg VaList IntStr =>
      fst (RML_COMM_LogMsg st Src LogLvl Msg VaList IntStr)
  end.

Definition do_calls (st : logger) (cs : list call) : logger := fold_left do_call cs st.

(** A successful initialisation is a [CallInit] with an accepted baud rate. *)
Definition init_succeeds (c : call) : bool :=
  match c with
  | CallInit BaudRate => negb ((BaudRate >? MaxBaudrate) || (BaudRate =? 0))
  | _ => false
  end.

(** ** _RML_COMM_Assert *)

(** The format of line 741, with its carriage return, line feed and tab. *)
Definition Assert_Msg : list Z :=
  codes "ASSERTION FAILED:" ++ [13; 10; 9] ++ codes "--> File: %s"
  ++ [13; 10; 9] ++ codes "--> Line: %u".

(** Lines 733-743: the failure is logged at level FATAL and the function then
    spins in [while(1)].  It never returns; the value is the state, and the
    ending of the logging call, with which it enters the endless loop. *)
Definition _RML_COMM_Assert (st : logger) (FileName : list Z) (LineNumber : Z)
  (IntStr : buffer) : logger * ending :=
  RML_COMM_LogMsg st (codes "RML_ASSERT") e_FATAL Assert_Msg
    [VaStr FileName; VaInt LineNumber] IntStr.

(** * Vocabulary of the statements

    Nothing below is taken from the source: a parser for digit strings, to
    state the round trip, and the digit lists the loops are compared with. *)

(** ** Reparsing a digit string (digits 0-9A-Z) in a base *)

Definition digit_value (c : Z) : option Z :=
  if (48 <=? c) && (c <=? 57) then Some (c - 48)
  else if (65 <=? c) && (c <=? 90) then Some (c - 55)
  else None.

Fixpoint parse_digits (Base acc : Z) (s : list Z) : option Z :=
  match s with
  | [] => Some acc
  | c :: s' =>
      match digit_value c with
      | Some d => if d <? Base then parse_digits Base (acc * Base + d) s' else None
      | None => None
      end
  end.

Definition reparse (Base : Z) (s : list Z) : option Z :=
  match s with
  | [] => None
  | _ => parse_digits Base 0 s
  end.

(** ** Digit lists, used to describe what the loops store *)

Definition to_digit (r : Z) : Z := if r <? 10 then 48 + r else 55 + r.

Fixpoint digits_lsb (fuel : nat) (Base v : Z) : list Z :=
  match fuel with
  | O => []
  | S fuel' =>
      v mod Base :: (if v / Base =? 0 then [] else digits_lsb fuel' Base (v / Base))
  end.

Definition digit_chars (Base v : Z) : list Z :=
  map to_digit (digits_lsb digit_fuel Base v).

Definition len {A} (l : list A) : Z := Z.of_nat (length l).

(** The characters the integer converters produce, in order of production:
    the digits of the magnitude, then the sign of a negative decimal. *)
Definition utoa_chars (Base Value : Z) : list Z := digit_chars Base Value.

Definition itoa_chars (Base Value : Z) : list Z :=
  digit_chars Base (Z.abs Value)
  ++ (if (Value <? 0) && (Base =? 10) then [code "-"] else []).

(** The output length a conversion requires, terminator included. *)
Definition utoa_required (Base Value : Z) : Z := len (utoa_chars Base Value) + 1.
Definition itoa_required (Base Value : Z) : Z := len (itoa_chars Base Value) + 1.

(** The characters RML_COMM_ftoa produces for a whole part, in order of
    production: its decimal digits, then the sign. *)
Definition ftoa_whole_chars (WholePart : Z) : list Z :=
  digit_chars 10 (Z.abs WholePart) ++ (if WholePart <? 0 then [code "-"] else []).

(** A format character the scanner copies: neither the terminator nor '%'. *)
Definition literal (c : Z) : Prop := c <> 0 /\ c <> code "%".

(** The characters that select a conversion after '%'. *)
Definition specifiers : list Z := codes "scuid%Xx.f".

(** * Properties *)

(** ** Machine arithmetic *)

Lemma uint32_small z : 0 <= z < 2 ^ 32 -> uint32 z = z.
Proof. intros H. unfold uint32. apply Z.mod_small. exact H. Qed.

Lemma int32_small z : - 2 ^ 31 <= z < 2 ^ 31 -> int32 z = z.
Proof. intros H. unfold int32. rewrite Z.mod_small; lia. Qed.

Lemma len_app {A} (l1 l2 : list A) : len (l1 ++ l2) = len l1 + len l2.
Proof. unfold len. rewrite length_app. lia. Qed.

Lemma len_nonneg {A} (l : list A) : 0 <= len l.
Proof. unfold len. lia. Qed.

(** ** Buffers *)

Lemma store_list_below l : forall b i j, j < i -> store_list b i l j = b j.
Proof.
  induction l as [|c l IH]; intros b i j Hj; simpl.
  - reflexivity.
  - rewrite IH by lia. unfold store.
    destruct (Z.eqb_spec j i); [lia | reflexivity].
Qed.

Lemma store_list_above l : forall b i j, i + len l <= j -> store_list b i l j = b j.
Proof.
  induction l as [|c l IH]; intros b i j Hj; simpl.
  - reflexivity.
  - unfold len in *. cbn [length] in Hj. rewrite IH by lia. unfold store.
    destruct (Z.eqb_spec j i); [lia | reflexivity].
Qed.

Lemma store_list_snoc l : forall b i c,
  store_list b i (l ++ [c]) = store (store_list b i l) (i + len l) c.
Proof.
  induction l as [|a l IH]; intros b i c; simpl.
  - unfold len. simpl. rewrite Z.add_0_r. reflexivity.
  - rewrite IH. f_equal. unfold len. cbn [length]. lia.
Qed.

Lemma load_store_list l : forall b i, load (length l) (store_list b i l) i = l.
Proof.
  induction l as [|c l IH]; intros b i; simpl.
  - reflexivity.
  - rewrite IH. rewrite store_list_below by lia. unfold store.
    rewrite Z.eqb_refl. reflexivity.
Qed.

Lemma load_ext n : forall b b' i,
  (forall j, i <= j < i + Z.of_nat n -> b' j = b j) -> load n b' i = load n b i.
Proof.
  induction n as [|n IH]; intros b b' i H; simpl.
  - reflexivity.
  - rewrite H by lia. f_equal. apply IH. intros j Hj. apply H. lia.
Qed.

Lemma load_snoc n : forall b i, load (S n) b i = load n b i ++ [b (i + Z.of_nat n)].
Proof.
  induction n as [|n IH]; intros b i.
  - simpl. rewrite Z.add_0_r. reflexivity.
  - change (load (S (S n)) b i) with (b i :: load (S n) b (i + 1)).
    rewrite IH. replace (i + 1 + Z.of_nat n) with (i + Z.of_nat (S n)) by lia.
    reflexivity.
Qed.

(** A buffer that holds another one mirrored loads the reversed bytes. *)
Lemma load_mirror n : forall b b' i k,
  (forall j, 0 <= j < Z.of_nat n -> b' (i + j) = b (k + Z.of_nat n - 1 - j)) ->
  load n b' i = rev (load n b k).
Proof.
  induction n as [|n IH]; intros b b' i k H.
  - reflexivity.
  - rewrite (load_snoc n b k). rewrite rev_app_distr. simpl.
    f_equal.
    + specialize (H 0). rewrite Z.add_0_r in H. rewrite H by lia. f_equal. lia.
    + apply IH. intros j Hj.
      replace (i + 1 + j) with (i + (j + 1)) by lia.
      rewrite H by lia. f_equal. lia.
Qed.

Lemma c_str_load n : forall fuel b i l,
  load n b i = l -> Forall (fun c => c <> 0) l -> b (i + Z.of_nat n) = 0 ->
  (n < fuel)%nat -> c_str fuel b i = Some l.
Proof.
  induction n as [|n IH]; intros fuel b i l Hl Hnz Hz Hf.
  - destruct fuel as [|fuel]; [lia|]. simpl in *. subst l.
    rewrite Z.add_0_r in Hz. rewrite Hz. reflexivity.
  - destruct fuel as [|fuel]; [lia|]. simpl in *. subst l.
    inversion Hnz as [|x xs Hx Hxs]; subst.
    destruct (Z.eqb_spec (b i) 0); [contradiction|].
    rewrite (IH fuel b (i + 1) _ eq_refl Hxs); [reflexivity | | lia].
    rewrite <- Hz. f_equal. lia.
Qed.

(** ** The digit table *)

Lemma table_digit r : 0 <= r < 36 -> char_at digit_table (35 + r) = to_digit r.
Proof.
  intros H.
  assert (exists n, r = Z.of_nat n /\ (n < 36)%nat) as (n & -> & Hn)
    by (exists (Z.to_nat r); lia).
  clear H. do 36 (destruct n as [|n]; [reflexivity|]). lia.
Qed.

Lemma table_mirror r : 0 <= r < 36 -> char_at digit_table (35 - r) = to_digit r.
Proof.
  intros H.
  assert (exists n, r = Z.of_nat n /\ (n < 36)%nat) as (n & -> & Hn)
    by (exists (Z.to_nat r); lia).
  clear H. do 36 (destruct n as [|n]; [reflexivity|]). lia.
Qed.

Lemma digit_value_to_digit r : 0 <= r < 36 -> digit_value (to_digit r) = Some r.
Proof.
  intros H. unfold digit_value, to_digit.
  destruct (Z.ltb_spec r 10).
  - replace ((48 <=? 48 + r) && (48 + r <=? 57)) with true by (symmetry; apply andb_true_iff; lia).
    f_equal. lia.
  - replace ((48 <=? 55 + r) && (55 + r <=? 57)) with false by (symmetry; apply andb_false_iff; lia).
    replace ((65 <=? 55 + r) && (55 + r <=? 90)) with true by (symmetry; apply andb_true_iff; lia).
    f_equal. lia.
Qed.

Lemma to_digit_range r : 0 <= r < 36 -> 48 <= to_digit r <= 90.
Proof. intros H. unfold to_digit. destruct (Z.ltb_spec r 10); lia. Qed.

(** ** Digit lists *)

Lemma digits_lsb_range Base fuel : forall v,
  2 <= Base -> 0 <= v -> Forall (fun d => 0 <= d < Base) (digits_lsb fuel Base v).
Proof.
  induction fuel as [|fuel IH]; intros v HB Hv; simpl.
  - constructor.
  - constructor.
    + apply Z.mod_pos_bound. lia.
    + destruct (v / Base =? 0); [constructor|].
      apply IH; [lia|]. apply Z.div_pos; lia.
Qed.

Lemma digits_lsb_length Base fuel v : (length (digits_lsb fuel Base v) <= fuel)%nat.
Proof.
  revert v. induction fuel as [|fuel IH]; intros v; simpl.
  - lia.
  - destruct (v / Base =? 0); simpl; [lia|]. specialize (IH (v / Base)). lia.
Qed.

Lemma digit_chars_length Base v : 1 <= len (digit_chars Base v) <= 32.
Proof.
  unfold digit_chars, len. rewrite length_map.
  pose proof (digits_lsb_length Base digit_fuel v) as H.
  unfold digit_fuel in *. cbn [digits_lsb length] in *. lia.
Qed.

Lemma digit_chars_nonzero Base v :
  2 <= Base <= 36 -> 0 <= v -> Forall (fun c => 48 <= c <= 90) (digit_chars Base v).
Proof.
  intros HB Hv. unfold digit_chars. apply Forall_map.
  eapply Forall_impl; [|apply digits_lsb_range; lia].
  intros d Hd. cbv beta in Hd. apply to_digit_range. lia.
Qed.

Lemma div_base_lt Base fuel v :
  2 <= Base -> 0 <= v < 2 ^ Z.of_nat (S fuel) -> 0 <= v / Base < 2 ^ Z.of_nat fuel.
Proof.
  intros HB Hv. split.
  - apply Z.div_pos; lia.
  - apply Z.div_lt_upper_bound; [lia|].
    rewrite Nat2Z.inj_succ, Z.pow_succ_r in Hv by lia.
    assert (0 < 2 ^ Z.of_nat fuel) by (apply Z.pow_pos_nonneg; lia). nia.
Qed.

Lemma pow_fuel_ge_1 fuel v : 1 <= v < 2 ^ Z.of_nat fuel -> (1 <= fuel)%nat.
Proof. intros H. destruct fuel; [simpl in H; lia | lia]. Qed.

(** ** The digit loop of RML_COMM_utoa *)

Lemma utoa_digits_spec Base : 2 <= Base <= 36 -> forall fuel Value b ptr,
  (1 <= fuel)%nat -> 0 <= Value < 2 ^ Z.of_nat fuel -> Value < 2 ^ 32 ->
  utoa_digits fuel Value Base b ptr =
  Some (store_list b ptr (map to_digit (digits_lsb fuel Base Value)),
        ptr + len (digits_lsb fuel Base Value)).
Proof.
  intros HB. induction fuel as [|fuel IH]; intros Value b ptr Hf HV H32; [lia|].
  pose proof (div_base_lt Base fuel Value ltac:(lia) HV) as Hq.
  assert (Hq32 : Value / Base < 2 ^ 32).
  { apply Z.div_lt_upper_bound; [lia|]. nia. }
  cbn [utoa_digits digits_lsb map].
  rewrite (uint32_small (Value / Base)) by lia.
  assert (Hr : Value - uint32 (Value / Base * Base) = Value mod Base).
  { rewrite uint32_small.
    - rewrite (Z.mod_eq Value Base) by lia. lia.
    - pose proof (Z.mul_div_le Value Base ltac:(lia)). nia. }
  rewrite Hr.
  pose proof (Z.mod_pos_bound Value Base ltac:(lia)) as Hm.
  rewrite (uint32_small (Value mod Base)) by lia.
  rewrite (uint32_small (35 + Value mod Base)) by lia.
  rewrite table_digit by lia.
  destruct (Z.eqb_spec (Value / Base) 0) as [Hz|Hz].
  - cbn [store_list map]. unfold len. cbn [length]. do 2 f_equal.
  - rewrite IH; [| apply (pow_fuel_ge_1 fuel (Value / Base)); lia | lia | lia].
    cbn [store_list]. unfold len. cbn [length]. do 2 f_equal. lia.
Qed.

(** ** The digit loop of RML_COMM_itoa *)

Lemma itoa_digits_spec Base : 2 <= Base <= 36 -> forall fuel Value b ptr,
  (1 <= fuel)%nat -> Z.abs Value < 2 ^ Z.of_nat fuel -> - 2 ^ 31 <= Value < 2 ^ 31 ->
  itoa_digits fuel Value Base b ptr =
  Some (store_list b ptr (map to_digit (digits_lsb fuel Base (Z.abs Value))),
        ptr + len (digits_lsb fuel Base (Z.abs Value))).
Proof.
  intros HB. induction fuel as [|fuel IH]; intros Value b ptr Hf HV H32; [lia|].
  pose proof (div_base_lt Base fuel (Z.abs Value) ltac:(lia) ltac:(lia)) as Hq.
  pose proof (Z.mod_pos_bound (Z.abs Value) Base ltac:(lia)) as Hm.
  pose proof (Z.mul_div_le (Z.abs Value) Base ltac:(lia)) as Hle.
  pose proof (Z.mod_eq (Z.abs Value) Base ltac:(lia)) as Hme.
  assert (Hquot : Z.quot Value Base = Z.sgn Value * (Z.abs Value / Base)).
  { destruct (Z.le_gt_cases 0 Value) as [Hs|Hs].
    - rewrite Z.quot_div_nonneg by lia. rewrite Z.abs_eq by lia.
      destruct (Z.eq_dec Value 0) as [->|]; [reflexivity|].
      rewrite Z.sgn_pos by lia. lia.
    - replace Value with (- Z.abs Value) at 1 by lia.
      rewrite Z.quot_opp_l by lia. rewrite Z.quot_div_nonneg by lia.
      rewrite Z.sgn_neg by lia. lia. }
  assert (Hsg : Z.sgn Value = 1 \/ Z.sgn Value = 0 /\ Value = 0 \/ Z.sgn Value = -1).
  { destruct (Z.sgn_spec Value) as [[? ->]|[[<- ->]|[? ->]]]; auto. }
  cbn [itoa_digits digits_lsb map].
  assert (Hqs : int32 (Z.quot Value Base) = Z.quot Value Base).
  { apply int32_small. rewrite Hquot. nia. }
  rewrite Hqs.
  assert (Hp : int32 (Z.quot Value Base * Base) = Z.quot Value Base * Base).
  { apply int32_small. rewrite Hquot. nia. }
  rewrite Hp.
  assert (Hrem : Value - Z.quot Value Base * Base = Z.sgn Value * (Z.abs Value mod Base)).
  { rewrite Hquot, Hme. destruct Hsg as [E|[[E E0]|E]]; rewrite E; lia. }
  rewrite Hrem.
  assert (Hch : char_at digit_table (35 + int32 (Z.sgn Value * (Z.abs Value mod Base)))
                = to_digit (Z.abs Value mod Base)).
  { rewrite int32_small by nia.
    destruct Hsg as [E|[[E E0]|E]]; rewrite E.
    - rewrite Z.mul_1_l. apply table_digit. lia.
    - subst Value. reflexivity.
    - replace (35 + -1 * (Z.abs Value mod Base)) with (35 - Z.abs Value mod Base) by lia.
      apply table_mirror. lia. }
  rewrite Hch.
  assert (Habs : Z.abs (Z.quot Value Base) = Z.abs Value / Base).
  { rewrite Hquot. destruct Hsg as [E|[[E E0]|E]]; rewrite E; lia. }
  destruct (Z.eqb_spec (Z.quot Value Base) 0) as [Hz|Hz].
  - replace (Z.abs Value / Base =? 0) with true by (symmetry; apply Z.eqb_eq; lia).
    cbn [store_list map]. unfold len. cbn [length]. do 2 f_equal.
  - replace (Z.abs Value / Base =? 0) with false by (symmetry; apply Z.eqb_neq; lia).
    rewrite IH; [| apply (pow_fuel_ge_1 fuel (Z.abs Value / Base)); lia | lia | nia].
    rewrite Habs. cbn [store_list]. unfold len. cbn [length]. do 2 f_equal. lia.
Qed.

(** ** The in-place reversal *)

Ltac zbool :=
  repeat match goal with
    | |- context [Z.eqb ?x ?y] => destruct (Z.eqb_spec x y)
    | |- context [Z.leb ?x ?y] => destruct (Z.leb_spec x y)
    | |- context [Z.ltb ?x ?y] => destruct (Z.ltb_spec x y)
    end;
  cbn [andb orb negb]; try lia; try (f_equal; lia).

Lemma reverse_ptrs_spec fuel : forall b lo hi,
  lo <= hi + 1 -> hi - lo <= Z.of_nat fuel ->
  exists b',
    reverse_ptrs fuel b lo hi = Some (b', hi - (hi - lo + 1) / 2) /\
    forall j, b' j = if (lo <=? j) && (j <=? hi) then b (lo + hi - j) else b j.
Proof.
  induction fuel as [|fuel IH]; intros b lo hi Hlo Hf.
  - exists b. cbn [reverse_ptrs].
    destruct (Z.ltb_spec lo hi); [lia|]. split.
    + assert (E : (hi - lo + 1) / 2 = 0) by (apply Z.div_small; lia).
      rewrite E, Z.sub_0_r. reflexivity.
    + intros j. zbool.
  - cbn [reverse_ptrs]. destruct (Z.ltb_spec lo hi) as [Hlt|Hge].
    + destruct (IH (store (store b hi (b lo)) lo (b hi)) (lo + 1) (hi - 1))
        as (b' & Hrun & Hb'); [lia | lia |].
      exists b'. split.
      * rewrite Hrun. do 2 f_equal.
        replace (hi - lo + 1) with ((hi - 1 - (lo + 1) + 1) + 1 * 2) by lia.
        rewrite Z.div_add by lia. lia.
      * intros j. rewrite Hb'. unfold store. zbool.
    + exists b. split.
      * assert (E : (hi - lo + 1) / 2 = 0) by (apply Z.div_small; lia).
        rewrite E, Z.sub_0_r. reflexivity.
      * intros j. zbool.
Qed.

(** The common tail of the integer converters, on a buffer that holds the
    characters [l] in order of production. *)
Lemma finish_itoa_small b l cap :
  cap <= len l ->
  finish_itoa (store_list b 0 l) (len l) cap = Some (-1, store (store_list b 0 l) 0 0).
Proof.
  intros H. unfold finish_itoa.
  destruct (Z.geb_spec (len l) cap); [reflexivity | lia].
Qed.

Lemma finish_itoa_fits b l cap :
  len l < cap ->
  exists b',
    finish_itoa (store_list b 0 l) (len l) cap = Some (len l - 1 - len l / 2, b') /\
    load (length l) b' 0 = rev l /\
    b' (len l) = 0 /\
    forall j, len l < j -> b' j = b j.
Proof.
  intros H. unfold finish_itoa.
  destruct (Z.geb_spec (len l) cap); [lia|].
  pose proof (len_nonneg l) as Hn.
  destruct (reverse_ptrs_spec (Z.to_nat (len l - 1 + 1))
              (store (store_list b 0 l) (len l) 0) 0 (len l - 1))
    as (b' & Hrun & Hb'); [lia | lia |].
  exists b'. rewrite Hrun.
  replace (len l - 1 - 0 + 1) with (len l) by lia.
  split; [reflexivity|]. split; [|split].
  - rewrite <- (load_store_list l b 0) at 2.
    apply load_mirror. intros j Hj. fold (len l) in Hj.
    rewrite Hb'. unfold store. fold (len l). zbool.
  - rewrite Hb'. unfold store. zbool.
  - intros j Hj. rewrite Hb'. unfold store. zbool.
    apply store_list_above. lia.
Qed.

(** ** The integer converters as a whole *)

Lemma base_accepted Base : 2 <= Base <= 36 -> (Base <? 2) || (Base >? 36) = false.
Proof.
  intros H. rewrite Z.gtb_ltb.
  destruct (Z.ltb_spec Base 2), (Z.ltb_spec 36 Base); simpl; lia.
Qed.

Lemma base_rejected Base : Base < 2 \/ 36 < Base -> (Base <? 2) || (Base >? 36) = true.
Proof.
  intros H. rewrite Z.gtb_ltb.
  destruct (Z.ltb_spec Base 2), (Z.ltb_spec 36 Base); simpl; lia.
Qed.

Lemma utoa_run Value b cap Base :
  2 <= Base <= 36 -> 0 <= Value < 2 ^ 32 ->
  RML_COMM_utoa Value b cap Base =
  finish_itoa (store_list b 0 (utoa_chars Base Value)) (len (utoa_chars Base Value)) cap.
Proof.
  intros HB HV. unfold RML_COMM_utoa.
  rewrite base_accepted by exact HB.
  rewrite (utoa_digits_spec Base HB digit_fuel) by (unfold digit_fuel; lia).
  unfold utoa_chars, digit_chars, len. rewrite length_map. reflexivity.
Qed.

Lemma itoa_run Value b cap Base :
  2 <= Base <= 36 -> - 2 ^ 31 <= Value < 2 ^ 31 ->
  RML_COMM_itoa Value b cap Base =
  finish_itoa (store_list b 0 (itoa_chars Base Value)) (len (itoa_chars Base Value)) cap.
Proof.
  intros HB HV. unfold RML_COMM_itoa.
  rewrite base_accepted by exact HB.
  rewrite (itoa_digits_spec Base HB digit_fuel) by (unfold digit_fuel; lia).
  unfold itoa_chars. fold (digit_chars Base (Z.abs Value)).
  replace (0 + len (digits_lsb digit_fuel Base (Z.abs Value)))
    with (0 + len (digit_chars Base (Z.abs Value)))
    by (unfold digit_chars, len; rewrite length_map; reflexivity).
  destruct ((Value <? 0) && (Base =? 10)).
  - rewrite store_list_snoc, len_app. reflexivity.
  - rewrite app_nil_r. reflexivity.
Qed.

Lemma itoa_chars_nonzero Base Value :
  2 <= Base <= 36 -> Forall (fun c => c <> 0) (itoa_chars Base Value).
Proof.
  intros HB. unfold itoa_chars. apply Forall_app. split.
  - eapply Forall_impl; [|apply digit_chars_nonzero; lia].
    intros c Hc. cbv beta in Hc. lia.
  - destruct ((Value <? 0) && (Base =? 10)); repeat constructor. discriminate.
Qed.

Lemma utoa_chars_nonzero Base Value :
  2 <= Base <= 36 -> 0 <= Value -> Forall (fun c => c <> 0) (utoa_chars Base Value).
Proof.
  intros HB HV. eapply Forall_impl; [|apply digit_chars_nonzero; lia].
  intros c Hc. cbv beta in Hc. lia.
Qed.

Lemma itoa_chars_length Base Value : 1 <= len (itoa_chars Base Value) <= 33.
Proof.
  unfold itoa_chars. rewrite len_app.
  pose proof (digit_chars_length Base (Z.abs Value)).
  destruct ((Value <? 0) && (Base =? 10));
    [change (len [code "-"]) with 1 | change (len (@nil Z)) with 0]; lia.
Qed.

(** A successful tail leaves the reversed characters as a terminated string
    and returns where [ptr] stopped, which is short of the length. *)
Lemma finish_itoa_string b l cap :
  len l < cap -> len l <= 33 -> Forall (fun c => c <> 0) l ->
  exists b',
    finish_itoa (store_list b 0 l) (len l) cap = Some (len l - 1 - len l / 2, b') /\
    c_str 64 b' 0 = Some (rev l).
Proof.
  intros Hcap Hlen Hnz.
  destruct (finish_itoa_fits b l cap Hcap) as (b' & Hrun & Hload & Hz & _).
  exists b'. split; [exact Hrun|].
  apply (c_str_load (length l)).
  - exact Hload.
  - apply Forall_rev. exact Hnz.
  - exact Hz.
  - unfold len in Hlen. lia.
Qed.

(** ** Reparsing *)

Lemma parse_digits_snoc Base l : forall acc c,
  parse_digits Base acc (l ++ [c]) =
  match parse_digits Base acc l with
  | Some a =>
      match digit_value c with
      | Some d => if d <? Base then Some (a * Base + d) else None
      | None => None
      end
  | None => None
  end.
Proof.
  induction l as [|x l IH]; intros acc c; simpl.
  - destruct (digit_value c) as [d|]; [|reflexivity].
    destruct (d <? Base); reflexivity.
  - destruct (digit_value x) as [d|]; [|reflexivity].
    destruct (d <? Base); [apply IH | reflexivity].
Qed.

Lemma parse_rev_digits Base : 2 <= Base <= 36 -> forall fuel v,
  (1 <= fuel)%nat -> 0 <= v < 2 ^ Z.of_nat fuel ->
  parse_digits Base 0 (rev (map to_digit (digits_lsb fuel Base v))) = Some v.
Proof.
  intros HB. induction fuel as [|fuel IH]; intros v Hf Hv; [lia|].
  pose proof (div_base_lt Base fuel v ltac:(lia) Hv) as Hq.
  pose proof (Z.mod_pos_bound v Base ltac:(lia)) as Hm.
  pose proof (Z.div_mod v Base ltac:(lia)) as Hdm.
  cbn [digits_lsb map rev]. rewrite parse_digits_snoc.
  rewrite digit_value_to_digit by lia.
  replace (v mod Base <? Base) with true by (symmetry; apply Z.ltb_lt; lia).
  destruct (Z.eqb_spec (v / Base) 0) as [Hz|Hz].
  - simpl. f_equal. rewrite Hz in Hdm. lia.
  - rewrite IH; [| apply (pow_fuel_ge_1 fuel (v / Base)); lia | lia].
    f_equal. lia.
Qed.

Lemma reparse_digit_chars Base v :
  2 <= Base <= 36 -> 0 <= v < 2 ^ 32 ->
  reparse Base (rev (digit_chars Base v)) = Some v.
Proof.
  intros HB Hv. unfold reparse.
  pose proof (digit_chars_length Base v) as Hl.
  destruct (rev (digit_chars Base v)) eqn:E.
  - apply (f_equal (@length Z)) in E. rewrite length_rev in E.
    unfold len in Hl. cbn [length] in E. lia.
  - rewrite <- E. unfold digit_chars.
    apply parse_rev_digits; [exact HB | unfold digit_fuel; lia | exact Hv].
Qed.

(** ** RML_COMM_ReverseString and the whole-part loop of RML_COMM_ftoa *)

Lemma reverse_loop_spec fuel : forall b i j,
  0 <= i -> j < 2 ^ 32 -> i <= j + 1 -> j - i <= Z.of_nat fuel ->
  exists b',
    reverse_loop fuel b i j = Some b' /\
    forall k, b' k = if (i <=? k) && (k <=? j) then b (i + j - k) else b k.
Proof.
  induction fuel as [|fuel IH]; intros b i j Hi Hj Hij Hf.
  - exists b. cbn [reverse_loop].
    destruct (Z.ltb_spec i j); [lia|]. split; [reflexivity|].
    intros k. zbool.
  - cbn [reverse_loop]. destruct (Z.ltb_spec i j) as [Hlt|Hge].
    + rewrite (uint32_small (i + 1)), (uint32_small (j - 1)) by lia.
      destruct (IH (store (store b i (b j)) j (b i)) (i + 1) (j - 1))
        as (b' & Hrun & Hb'); [lia | lia | lia | lia |].
      exists b'. split; [exact Hrun|].
      intros k. rewrite Hb'. unfold store. zbool.
    + exists b. split; [reflexivity|]. intros k. zbool.
Qed.

Lemma ReverseString_spec b l :
  1 <= len l -> len l < 2 ^ 32 ->
  exists b',
    RML_COMM_ReverseString (store_list b 0 l) (len l) = Some b' /\
    load (length l) b' 0 = rev l /\
    forall k, len l <= k -> b' k = b k.
Proof.
  intros H1 H2. unfold RML_COMM_ReverseString.
  rewrite uint32_small by lia.
  destruct (reverse_loop_spec (Z.to_nat (len l)) (store_list b 0 l) 0 (len l - 1))
    as (b' & Hrun & Hb'); [lia | lia | lia | lia |].
  exists b'. split; [exact Hrun|]. split.
  - rewrite <- (load_store_list l b 0) at 2.
    apply load_mirror. intros j Hj. fold (len l) in Hj.
    rewrite Hb'. fold (len l). zbool.
  - intros k Hk. rewrite Hb'. zbool. apply store_list_above. lia.
Qed.

Lemma ftoa_whole_spec BuffSize : BuffSize < 2 ^ 32 -> forall fuel WholePart b i,
  (1 <= fuel)%nat -> 0 <= WholePart < 2 ^ Z.of_nat fuel -> 0 <= i ->
  i + len (digits_lsb fuel 10 WholePart) <= BuffSize ->
  ftoa_whole fuel WholePart b i BuffSize =
  Next (store_list b i (map to_digit (digits_lsb fuel 10 WholePart)),
        i + len (digits_lsb fuel 10 WholePart)).
Proof.
  intros Hcap. induction fuel as [|fuel IH]; intros W b i Hf HW Hi Hroom; [lia|].
  pose proof (div_base_lt 10 fuel W ltac:(lia) HW) as Hq.
  pose proof (Z.mod_pos_bound W 10 ltac:(lia)) as Hm.
  cbn [ftoa_whole digits_lsb map] in *.
  assert (Hlen : len (W mod 10 :: (if W / 10 =? 0 then [] else digits_lsb fuel 10 (W / 10)))
                 = 1 + len (if W / 10 =? 0 then [] else digits_lsb fuel 10 (W / 10))).
  { unfold len. cbn [length]. lia. }
  rewrite Hlen in *.
  pose proof (len_nonneg (if W / 10 =? 0 then [] else digits_lsb fuel 10 (W / 10))) as Hn.
  destruct (Z.ltb_spec i BuffSize); [|lia].
  rewrite Z.rem_mod_nonneg, Z.quot_div_nonneg by lia.
  change (code "0") with 48.
  replace (uint8 (W mod 10 + 48)) with (to_digit (W mod 10)).
  2:{ unfold uint8, to_digit. rewrite (Z.mod_small (W mod 10 + 48)) by lia.
      destruct (Z.ltb_spec (W mod 10) 10); lia. }
  rewrite (uint32_small (i + 1)) by lia.
  destruct (Z.eqb_spec (W / 10) 0) as [Hz|Hz].
  - rewrite Hz. cbn [Z.gtb Z.compare store_list map]. reflexivity.
  - replace (W / 10 >? 0) with true by (symmetry; apply Z.gtb_lt; lia).
    rewrite IH; [| apply (pow_fuel_ge_1 fuel (W / 10)); lia | lia | lia | lia].
    cbn [store_list]. do 2 f_equal. lia.
Qed.

(** * The claims *)

(** ** Capacity errors of the integer converters *)

(** With a capacity below the required length both integer converters return
    -1 and leave an empty string.  The digits were stored before the check,
    so bytes past the capacity have been written by then. *)
Lemma utoa_buffer_too_small Value b cap Base :
  2 <= Base <= 36 -> 0 <= Value < 2 ^ 32 -> cap < utoa_required Base Value ->
  exists b', RML_COMM_utoa Value b cap Base = Some (-1, b') /\ b' 0 = 0.
Proof.
  intros HB HV Hcap. unfold utoa_required in Hcap.
  rewrite utoa_run, finish_itoa_small by lia.
  eexists. split; [reflexivity|]. unfold store. rewrite Z.eqb_refl. reflexivity.
Qed.

Lemma itoa_buffer_too_small Value b cap Base :
  2 <= Base <= 36 -> - 2 ^ 31 <= Value < 2 ^ 31 -> cap < itoa_required Base Value ->
  exists b', RML_COMM_itoa Value b cap Base = Some (-1, b') /\ b' 0 = 0.
Proof.
  intros HB HV Hcap. unfold itoa_required in Hcap.
  rewrite itoa_run, finish_itoa_small by lia.
  eexists. split; [reflexivity|]. unfold store. rewrite Z.eqb_refl. reflexivity.
Qed.

(** C1 (code defect): RML_COMM_ftoa does not keep the capacity contract the
    integer converters keep.  "5.00" needs five bytes; with four the call
    returns 4 instead of -1; with one byte it returns -1 but leaves the digit
    '5' at the start of the buffer and writes the terminator at offset 1,
    past the capacity. *)
Theorem ftoa_capacity_contract_broken (b : buffer) :
  (returned (RML_COMM_ftoa 5 b 4 2) = Some 4 /\
   stored (RML_COMM_ftoa 5 b 4 2) = Some []) /\
  (returned (RML_COMM_ftoa 5 b 1 2) = Some (-1) /\
   option_map (fun r => load 2 (snd r) 0) (RML_COMM_ftoa 5 b 1 2) = Some [code "5"; 0]).
Proof. repeat split; reflexivity. Qed.

(** ** The returned length *)

(** What the integer converters return on success is the offset at which the
    reversal left [ptr], always short of the length of the stored string. *)
Lemma utoa_returns_midpoint Value b cap Base :
  2 <= Base <= 36 -> 0 <= Value < 2 ^ 32 -> utoa_required Base Value <= cap ->
  exists r s,
    returned (RML_COMM_utoa Value b cap Base) = Some r /\
    stored (RML_COMM_utoa Value b cap Base) = Some s /\
    r = len s - 1 - len s / 2 /\ 0 <= r < len s.
Proof.
  intros HB HV Hcap. unfold utoa_required in Hcap.
  pose proof (digit_chars_length Base Value) as Hl. fold (utoa_chars Base Value) in Hl.
  destruct (finish_itoa_string b (utoa_chars Base Value) cap) as (b' & Hrun & Hstr);
    [lia | lia | apply utoa_chars_nonzero; lia |].
  rewrite utoa_run, Hrun by lia. cbn [returned stored option_map fst].
  exists (len (utoa_chars Base Value) - 1 - len (utoa_chars Base Value) / 2),
         (rev (utoa_chars Base Value)).
  assert (E : len (rev (utoa_chars Base Value)) = len (utoa_chars Base Value))
    by (unfold len; rewrite length_rev; reflexivity).
  rewrite E. repeat split; try assumption.
  - assert (len (utoa_chars Base Value) / 2 < len (utoa_chars Base Value))
      by (apply Z.div_lt; lia).
    lia.
  - assert (0 <= len (utoa_chars Base Value) / 2) by (apply Z.div_pos; lia). lia.
Qed.

Lemma itoa_returns_midpoint Value b cap Base :
  2 <= Base <= 36 -> - 2 ^ 31 <= Value < 2 ^ 31 -> itoa_required Base Value <= cap ->
  exists r s,
    returned (RML_COMM_itoa Value b cap Base) = Some r /\
    stored (RML_COMM_itoa Value b cap Base) = Some s /\
    r = len s - 1 - len s / 2 /\ 0 <= r < len s.
Proof.
  intros HB HV Hcap. unfold itoa_required in Hcap.
  pose proof (itoa_chars_length Base Value) as Hl.
  destruct (finish_itoa_string b (itoa_chars Base Value) cap) as (b' & Hrun & Hstr);
    [lia | lia | apply itoa_chars_nonzero; lia |].
  rewrite itoa_run, Hrun by lia. cbn [returned stored option_map fst].
  exists (len (itoa_chars Base Value) - 1 - len (itoa_chars Base Value) / 2),
         (rev (itoa_chars Base Value)).
  assert (E : len (rev (itoa_chars Base Value)) = len (itoa_chars Base Value))
    by (unfold len; rewrite length_rev; reflexivity).
  rewrite E. repeat split; try assumption.
  - assert (len (itoa_chars Base Value) / 2 < len (itoa_chars Base Value))
      by (apply Z.div_lt; lia).
    lia.
  - assert (0 <= len (itoa_chars Base Value) / 2) by (apply Z.div_pos; lia). lia.
Qed.

(** C2 (code defect): the value returned on success is not the length of the
    stored string.  unsigned-to-string(0, buf, 20, 10) stores "0" and returns
    0; signed-to-string(-255, buf, 20, 10) stores "-255" and returns 1. *)
Theorem integer_converters_return_not_length (b : buffer) :
  (stored (RML_COMM_utoa 0 b 20 10) = Some (codes "0") /\
   returned (RML_COMM_utoa 0 b 20 10) = Some 0) /\
  (stored (RML_COMM_itoa (-255) b 20 10) = Some (codes "-255") /\
   returned (RML_COMM_itoa (-255) b 20 10) = Some 1).
Proof. repeat split; reflexivity. Qed.

(** ** Round trip *)

(** C3: for every base in [2,36] and every unsigned 32-bit value, the string
    RML_COMM_utoa stores in a buffer of at least the required size reparses,
    in the same base, to the value. *)
Theorem utoa_reparse_roundtrip Value b cap Base :
  2 <= Base <= 36 -> 0 <= Value < 2 ^ 32 -> utoa_required Base Value <= cap ->
  exists r b' s,
    RML_COMM_utoa Value b cap Base = Some (r, b') /\
    c_str 64 b' 0 = Some s /\
    reparse Base s = Some Value.
Proof.
  intros HB HV Hcap. unfold utoa_required in Hcap.
  pose proof (digit_chars_length Base Value) as Hl. fold (utoa_chars Base Value) in Hl.
  destruct (finish_itoa_string b (utoa_chars Base Value) cap) as (b' & Hrun & Hstr);
    [lia | lia | apply utoa_chars_nonzero; lia |].
  rewrite utoa_run by lia.
  eexists _, b', _. split; [exact Hrun|]. split; [exact Hstr|].
  apply reparse_digit_chars; assumption.
Qed.

Lemma utoa_reparse_roundtrip_witness :
  exists r b' s,
    RML_COMM_utoa 255 (fun _ => 0) 20 16 = Some (r, b') /\
    c_str 64 b' 0 = Some s /\
    reparse 16 s = Some 255.
Proof.
  apply (utoa_reparse_roundtrip 255 (fun _ => 0) 20 16); [lia | lia | vm_compute; discriminate].
Defined.

(** A buffer of 33 bytes is large enough for every value and base. *)
Lemma utoa_required_bound Base Value : utoa_required Base Value <= 33.
Proof. unfold utoa_required. pose proof (digit_chars_length Base Value). unfold utoa_chars. lia. Qed.

(** ** Invalid bases *)

(** C4: for every base outside [2,36] and every value, RML_COMM_utoa and
    RML_COMM_itoa return -1, store the terminator in the first byte and
    change no other byte. *)
Theorem invalid_base_rejected Value b cap Base :
  Base < 2 \/ 36 < Base ->
  (exists b', RML_COMM_utoa Value b cap Base = Some (-1, b') /\
              b' 0 = 0 /\ forall j, j <> 0 -> b' j = b j) /\
  (exists b', RML_COMM_itoa Value b cap Base = Some (-1, b') /\
              b' 0 = 0 /\ forall j, j <> 0 -> b' j = b j).
Proof.
  intros HB. unfold RML_COMM_utoa, RML_COMM_itoa.
  rewrite base_rejected by exact HB.
  split; exists (store b 0 0); (split; [reflexivity|]); unfold store; split.
  - reflexivity.
  - intros j Hj. destruct (Z.eqb_spec j 0); [contradiction | reflexivity].
  - reflexivity.
  - intros j Hj. destruct (Z.eqb_spec j 0); [contradiction | reflexivity].
Qed.

Lemma invalid_base_rejected_witness :
  (exists b', RML_COMM_utoa 1234 (fun _ => 7) 20 37 = Some (-1, b') /\
              b' 0 = 0 /\ forall j, j <> 0 -> b' j = 7) /\
  (exists b', RML_COMM_itoa 1234 (fun _ => 7) 20 37 = Some (-1, b') /\
              b' 0 = 0 /\ forall j, j <> 0 -> b' j = 7).
Proof.
  apply (invalid_base_rejected 1234 (fun _ => 7) 20 37). right. lia.
Defined.

(** ** RML_COMM_ftoa *)

(** With two decimal places asked for, -3.5 is rendered as "-3.50". *)
Example ftoa_two_places (b : buffer) :
  stored (RML_COMM_ftoa (-3.5) b 20 2) = Some (codes "-3.50") /\
  returned (RML_COMM_ftoa (-3.5) b 20 2) = Some 5.
Proof. split; reflexivity. Qed.

(** C5 (code defect): [Afterpoint = 0] is not replaced by 2.  The guard
    [Afterpoint > 0] skips the decimal point and the fractional digits, so
    float-to-string(-3.5, buf, 20, 0) stores "-3" and returns 2. *)
Theorem ftoa_zero_places_no_default (b : buffer) :
  stored (RML_COMM_ftoa (-3.5) b 20 0) = Some (codes "-3") /\
  returned (RML_COMM_ftoa (-3.5) b 20 0) = Some 2 /\
  stored (RML_COMM_ftoa (-3.5) b 20 0) <> stored (RML_COMM_ftoa (-3.5) b 20 2).
Proof. repeat split; try reflexivity. discriminate. Qed.

(** C6 (code defect): the sign test looks at the truncated whole part, which
    is 0 for a value strictly between -1 and 0.  Neither part is negated
    and no '-' is written: -0.5 with two places is stored as "0.+0", the
    '+' being '0' + (-5). *)
Theorem ftoa_small_negative_unsigned (b : buffer) :
  cast_int32 (-0.5) = Some 0 /\
  stored (RML_COMM_ftoa (-0.5) b 20 2) = Some (codes "0.+0") /\
  returned (RML_COMM_ftoa (-0.5) b 20 2) = Some 4.
Proof. repeat split; reflexivity. Qed.

(** C10: when the whole part is negative and its digits fill the buffer
    exactly, the whole-part loop falls through with the index at [BuffSize],
    the sign step changes nothing and returns nothing, and the function goes
    on.  With decimal places asked for it then returns -1 with the unsigned
    digits in the buffer and the terminator one past the capacity; with
    [Afterpoint = 0] it returns [BuffSize], not an error, and empties the
    buffer.  No '-' is ever stored. *)
Theorem ftoa_full_buffer_drops_sign Value WholePart b BuffSize Afterpoint :
  cast_int32 Value = Some WholePart ->
  - 2 ^ 31 < WholePart < 0 ->
  len (digit_chars 10 (- WholePart)) = BuffSize ->
  ftoa_whole digit_fuel (- WholePart) b 0 BuffSize =
    Next (store_list b 0 (digit_chars 10 (- WholePart)), BuffSize) /\
  ftoa_sign 1 (store_list b 0 (digit_chars 10 (- WholePart))) BuffSize BuffSize =
    (store_list b 0 (digit_chars 10 (- WholePart)), BuffSize) /\
  Forall (fun c => c <> code "-") (digit_chars 10 (- WholePart)) /\
  exists b',
    RML_COMM_ftoa Value b BuffSize Afterpoint =
      Some (if Afterpoint >? 0 then -1 else BuffSize, b') /\
    if Afterpoint >? 0
    then load (Z.to_nat BuffSize) b' 0 = rev (digit_chars 10 (- WholePart)) /\
         b' BuffSize = 0
    else b' 0 = 0.
Proof.
  intros Hcast HW Hlen.
  pose proof (digit_chars_length 10 (- WholePart)) as Hl.
  assert (Hwhole : ftoa_whole digit_fuel (- WholePart) b 0 BuffSize =
                   Next (store_list b 0 (digit_chars 10 (- WholePart)), BuffSize)).
  { assert (Hlen' : len (digits_lsb digit_fuel 10 (- WholePart)) = BuffSize).
    { rewrite <- Hlen. unfold digit_chars, len. rewrite length_map. reflexivity. }
    rewrite (ftoa_whole_spec BuffSize);
      [ | lia | unfold digit_fuel; lia | unfold digit_fuel; lia | lia | lia ].
    rewrite Hlen'. reflexivity. }
  assert (Hsign : ftoa_sign 1 (store_list b 0 (digit_chars 10 (- WholePart))) BuffSize BuffSize =
                  (store_list b 0 (digit_chars 10 (- WholePart)), BuffSize)).
  { unfold ftoa_sign. rewrite Z.ltb_irrefl. reflexivity. }
  split; [exact Hwhole|]. split; [exact Hsign|]. split.
  { eapply Forall_impl; [|apply digit_chars_nonzero; lia].
    intros c Hc. cbv beta in Hc. change (code "-") with 45. lia. }
  destruct (ReverseString_spec b (digit_chars 10 (- WholePart)))
    as (b2 & Hrev & Hload & Habove); [lia | lia |].
  rewrite Hlen in Hrev.
  unfold RML_COMM_ftoa. rewrite Hcast.
  replace (WholePart <? 0) with true by (symmetry; apply Z.ltb_lt; lia).
  rewrite (int32_small (- WholePart)) by lia.
  rewrite Hwhole. cbn [bind]. rewrite Hsign, Hrev. cbn [bind].
  unfold ftoa_point, ftoa_finish. rewrite Z.ltb_irrefl.
  destruct (Afterpoint >? 0); cbn [bind run].
  - exists (store b2 BuffSize 0). split; [reflexivity|]. split.
    + rewrite <- Hload. rewrite <- Hlen. unfold len. rewrite Nat2Z.id.
      apply load_ext. intros j Hj. unfold store. zbool.
    + unfold store. rewrite Z.eqb_refl. reflexivity.
  - exists (store b2 0 0). rewrite int32_small by lia.
    rewrite (uint32_small (BuffSize + 1)) by lia.
    replace (BuffSize + 1 >? BuffSize) with true by (symmetry; apply Z.gtb_lt; lia).
    split; [reflexivity|]. unfold store. reflexivity.
Qed.

Lemma ftoa_full_buffer_drops_sign_witness :
  exists b',
    RML_COMM_ftoa (-12) (fun _ => 0) 2 2 = Some (-1, b') /\
    load 2 b' 0 = codes "12" /\ b' 2 = 0.
Proof.
  destruct (ftoa_full_buffer_drops_sign (-12) (-12) (fun _ => 0) 2 2)
    as (_ & _ & _ & b' & Hrun & Hbuf); [reflexivity | lia | reflexivity |].
  exists b'. split; [exact Hrun|]. exact Hbuf.
Defined.

(** ** The precision fallback of the format scanner *)

(** After "%." any character outside '1'..'6' is sent to the sink alone; the
    '%' and the '.' are dropped, and the scan goes on behind that character
    with the same arguments. *)
Lemma precision_fallback_general d rest VaList IntStr :
  d < code "1" \/ code "6" < d ->
  vprintf_scan (code "%" :: code "." :: d :: rest) VaList IntStr =
  emit [d] (vprintf_scan rest VaList IntStr).
Proof.
  intros Hd. cbn [vprintf_scan].
  change (code "%" =? 0) with false. change (code "%" =? code "%") with true.
  change (code "." =? code "s") with false. change (code "." =? code "c") with false.
  change (code "." =? code "u") with false. change (code "." =? code "i") with false.
  change (code "." =? code "d") with false. change (code "." =? code "%") with false.
  change (code "." =? code "X") with false. change (code "." =? code "x") with false.
  change (code "." =? code ".") with true. cbn [orb].
  change (code "1") with 49 in *. change (code "6") with 54 in *.
  destruct (Z.leb_spec 49 d), (Z.leb_spec d 54); cbn [andb]; try reflexivity. lia.
Qed.

(** A character that is neither the terminator nor '%' goes to the sink as
    it is. *)
Lemma literal_char c rest VaList IntStr :
  c <> 0 /\ c <> code "%" ->
  vprintf_scan (c :: rest) VaList IntStr = emit [c] (vprintf_scan rest VaList IntStr).
Proof.
  intros [H0 Hp]. cbn [vprintf_scan].
  destruct (Z.eqb_spec c 0); [contradiction|].
  destruct (Z.eqb_spec c (code "%")); [contradiction | reflexivity].
Qed.

(** C7, as the code behaves: "%.7f" sends '7' and then the literal 'f' to
    the sink, neither '%' nor '.', and consumes no argument: the rest of the
    format is scanned with the argument sequence untouched. *)
Theorem precision_fallback_echoes_digit rest VaList IntStr :
  vprintf_scan (codes "%.7f" ++ rest) VaList IntStr =
  emit (codes "7f") (vprintf_scan rest VaList IntStr).
Proof.
  change (codes "%.7f" ++ rest) with (code "%" :: code "." :: code "7" :: code "f" :: rest).
  rewrite precision_fallback_general by (right; vm_compute; reflexivity).
  rewrite literal_char by (split; discriminate).
  unfold emit. cbn [fst snd app]. reflexivity.
Qed.

(** C7, as stated, fails: no '.' reaches the sink. *)
Lemma precision_fallback_drops_point :
  fst (vprintf_scan (codes "%.7f") [] (fun _ => 0)) = codes "7f" /\
  ~ In (code ".") (fst (vprintf_scan (codes "%.7f") [] (fun _ => 0))).
Proof.
  split; [reflexivity|]. vm_compute. intros [H|[H|[]]]; discriminate H.
Qed.

(** A specifier behind the fallback still gets the first argument. *)
Example precision_fallback_then_int (IntStr : buffer) :
  vprintf_scan (codes "%.7f|%d") [VaInt 42] IntStr = (codes "7f|42", Returned).
Proof. reflexivity. Qed.

(** ** The sign policy of RML_COMM_itoa *)

Lemma hd_Forall (P : Z -> Prop) l : Forall P l -> l = [] \/ P (hd 0 l).
Proof. intros H. destruct H; [left; reflexivity | right; assumption]. Qed.

(** C8: in a buffer of the required size RML_COMM_itoa stores the digits of
    the magnitude, preceded by '-' exactly when the value is negative and the
    base is 10. *)
Theorem itoa_sign_policy Value b cap Base :
  2 <= Base <= 36 -> - 2 ^ 31 <= Value < 2 ^ 31 -> itoa_required Base Value <= cap ->
  exists r b' s,
    RML_COMM_itoa Value b cap Base = Some (r, b') /\
    c_str 64 b' 0 = Some s /\
    s = (if (Value <? 0) && (Base =? 10) then [code "-"] else [])
        ++ rev (digit_chars Base (Z.abs Value)) /\
    reparse Base (rev (digit_chars Base (Z.abs Value))) = Some (Z.abs Value) /\
    (hd 0 s = code "-" <-> Value < 0 /\ Base = 10).
Proof.
  intros HB HV Hcap. unfold itoa_required in Hcap.
  pose proof (itoa_chars_length Base Value) as Hl.
  destruct (finish_itoa_string b (itoa_chars Base Value) cap) as (b' & Hrun & Hstr);
    [lia | lia | apply itoa_chars_nonzero; lia |].
  rewrite itoa_run by lia.
  eexists _, b', _. split; [exact Hrun|]. split; [exact Hstr|].
  assert (Hdig : Forall (fun c => 48 <= c <= 90) (rev (digit_chars Base (Z.abs Value))))
    by (apply Forall_rev, digit_chars_nonzero; lia).
  unfold itoa_chars. rewrite rev_app_distr. split; [|split].
  - destruct ((Value <? 0) && (Base =? 10)); reflexivity.
  - apply reparse_digit_chars; lia.
  - destruct (Z.ltb_spec Value 0) as [Hneg|Hpos]; cbn [andb].
    + destruct (Z.eqb_spec Base 10) as [Hten|Hten]; cbn [rev app hd].
      * split; [intros _; split; assumption | reflexivity].
      * split; [|intros [_ E]; contradiction].
        destruct (hd_Forall _ _ Hdig) as [E|E]; [rewrite E | cbv beta in E];
          change (code "-") with 45; cbn [hd]; lia.
    + cbn [rev app]. split; [|lia].
      destruct (hd_Forall _ _ Hdig) as [E|E]; [rewrite E | cbv beta in E];
        change (code "-") with 45; cbn [hd]; lia.
Qed.

Lemma itoa_sign_policy_witness :
  exists r b' s,
    RML_COMM_itoa (-255) (fun _ => 0) 20 10 = Some (r, b') /\
    c_str 64 b' 0 = Some s /\
    s = (if (-255 <? 0) && (10 =? 10) then [code "-"] else [])
        ++ rev (digit_chars 10 (Z.abs (-255))) /\
    reparse 10 (rev (digit_chars 10 (Z.abs (-255)))) = Some (Z.abs (-255)) /\
    (hd 0 s = code "-" <-> -255 < 0 /\ 10 = 10).
Proof.
  apply (itoa_sign_policy (-255) (fun _ => 0) 20 10); [lia | lia | vm_compute; discriminate].
Defined.

Example itoa_examples (b : buffer) :
  stored (RML_COMM_itoa (-255) b 20 10) = Some (codes "-255") /\
  stored (RML_COMM_itoa 255 b 20 16) = Some (codes "FF") /\
  stored (RML_COMM_itoa (-255) b 20 16) = Some (codes "FF").
Proof. repeat split; reflexivity. Qed.

(** ** The initialisation gate *)

(** C9: while [Logger_InitDone] is 0, RML_COMM_printf, RML_COMM_vprintf and
    RML_COMM_LogMsg return at once and leave the state, the sink included, as
    it was. *)
Theorem no_output_before_init st Src LogLvl InputStr VaList IntStr :
  Logger_InitDone st = 0 ->
  RML_COMM_printf st InputStr VaList IntStr = (st, Returned) /\
  RML_COMM_vprintf st InputStr VaList IntStr = (st, Returned) /\
  RML_COMM_LogMsg st Src LogLvl InputStr VaList IntStr = (st, Returned).
Proof.
  intros H. unfold RML_COMM_printf, RML_COMM_vprintf, RML_COMM_LogMsg.
  rewrite H. repeat split; reflexivity.
Qed.

Lemma no_output_before_init_witness :
  RML_COMM_printf power_on (codes "x=%d") [VaInt 7] (fun _ => 0) = (power_on, Returned) /\
  RML_COMM_vprintf power_on (codes "x=%d") [VaInt 7] (fun _ => 0) = (power_on, Returned) /\
  RML_COMM_LogMsg power_on (codes "main") e_INFO (codes "x=%d") [VaInt 7] (fun _ => 0)
    = (power_on, Returned).
Proof.
  apply (no_output_before_init power_on (codes "main") e_INFO (codes "x=%d")
           [VaInt 7] (fun _ => 0)).
  reflexivity.
Defined.

(** From power-on, a run of calls none of which is a successful
    initialisation writes nothing to the sink. *)
Lemma silent_until_init cs :
  forallb (fun c => negb (init_succeeds c)) cs = true ->
  sink (do_calls power_on cs) = [].
Proof.
  intros H. assert (E : do_calls power_on cs = power_on).
  { unfold do_calls. induction cs as [|c cs IH]; [reflexivity|].
    cbn [forallb] in H. apply andb_true_iff in H as [Hc Hcs].
    cbn [fold_left]. replace (do_call power_on c) with power_on; [exact (IH Hcs)|].
    destruct c; cbn [do_call init_succeeds] in *; try reflexivity.
    unfold RML_COMM_LoggerInit.
    destruct ((BaudRate >? MaxBaudrate) || (BaudRate =? 0)); [reflexivity | discriminate]. }
  rewrite E. reflexivity.
Qed.

(** * Further properties of the code *)

(** ** RML_COMM_ReverseString *)

Lemma ReverseString_pointwise Str Length :
  1 <= Length < 2 ^ 32 ->
  exists Str',
    RML_COMM_ReverseString Str Length = Some Str' /\
    forall k, Str' k = if (0 <=? k) && (k <=? Length - 1)
                       then Str (Length - 1 - k) else Str k.
Proof.
  intros HL. unfold RML_COMM_ReverseString. rewrite uint32_small by lia.
  destruct (reverse_loop_spec (Z.to_nat Length) Str 0 (Length - 1))
    as (Str' & Hrun & Hpt); [lia | lia | lia | lia |].
  exists Str'. split; [exact Hrun|].
  intros k. rewrite Hpt. zbool.
Qed.

(** X1: for a length between 1 and 2^32-1 the call returns, the first
    [Length] bytes are those of the argument in reverse order, and no other
    byte changes. *)
Theorem ReverseString_reverses Str Length :
  1 <= Length < 2 ^ 32 ->
  exists Str',
    RML_COMM_ReverseString Str Length = Some Str' /\
    load (Z.to_nat Length) Str' 0 = rev (load (Z.to_nat Length) Str 0) /\
    forall k, k < 0 \/ Length <= k -> Str' k = Str k.
Proof.
  intros HL. destruct (ReverseString_pointwise Str Length HL) as (Str' & Hrun & Hpt).
  exists Str'. split; [exact Hrun|]. split.
  - apply load_mirror. intros j Hj. rewrite Hpt. zbool.
  - intros k Hk. rewrite Hpt. zbool.
Qed.

Lemma ReverseString_reverses_witness :
  exists Str',
    RML_COMM_ReverseString (store_list (fun _ => 0) 0 (codes "abc")) 3 = Some Str' /\
    load (Z.to_nat 3) Str' 0 = rev (load (Z.to_nat 3) (store_list (fun _ => 0) 0 (codes "abc")) 0) /\
    forall k, k < 0 \/ 3 <= k -> Str' k = store_list (fun _ => 0) 0 (codes "abc") k.
Proof.
  apply (ReverseString_reverses (store_list (fun _ => 0) 0 (codes "abc")) 3). lia.
Defined.

(** X2: reversing twice with the same length gives back every byte. *)
Theorem ReverseString_involutive Str Length :
  1 <= Length < 2 ^ 32 ->
  exists Str' Str'',
    RML_COMM_ReverseString Str Length = Some Str' /\
    RML_COMM_ReverseString Str' Length = Some Str'' /\
    forall k, Str'' k = Str k.
Proof.
  intros HL.
  destruct (ReverseString_pointwise Str Length HL) as (Str' & Hrun & Hpt).
  destruct (ReverseString_pointwise Str' Length HL) as (Str'' & Hrun' & Hpt').
  exists Str', Str''. split; [exact Hrun|]. split; [exact Hrun'|].
  intros k. rewrite Hpt', (Hpt k), (Hpt (Length - 1 - k)). zbool.
Qed.

Lemma ReverseString_involutive_witness :
  exists Str' Str'',
    RML_COMM_ReverseString (store_list (fun _ => 0) 0 (codes "abcd")) 4 = Some Str' /\
    RML_COMM_ReverseString Str' 4 = Some Str'' /\
    forall k, Str'' k = store_list (fun _ => 0) 0 (codes "abcd") k.
Proof.
  apply (ReverseString_involutive (store_list (fun _ => 0) 0 (codes "abcd")) 4). lia.
Defined.

(** ** The integer converters and the capacity *)

Lemma store_list_nth l : forall b i k,
  0 <= k < len l -> store_list b i l (i + k) = nth (Z.to_nat k) l 0.
Proof.
  induction l as [|c l IH]; intros b i k Hk.
  - unfold len in Hk. simpl in Hk. lia.
  - unfold len in Hk. cbn [length] in Hk. cbn [store_list].
    destruct (Z.eq_dec k 0) as [->|Hnz].
    + rewrite Z.add_0_r, store_list_below by lia.
      unfold store. rewrite Z.eqb_refl. reflexivity.
    + replace (i + k) with (i + 1 + (k - 1)) by lia.
      rewrite IH by (unfold len; lia).
      replace (Z.to_nat k) with (S (Z.to_nat (k - 1))) by lia. reflexivity.
Qed.

(** X3: with a capacity of at least the required size RML_COMM_utoa returns
    and changes no byte at or beyond the required size, so nothing outside
    the buffer. *)
Theorem utoa_stays_in_bounds Value b cap Base :
  2 <= Base <= 36 -> 0 <= Value < 2 ^ 32 -> utoa_required Base Value <= cap ->
  exists r b',
    RML_COMM_utoa Value b cap Base = Some (r, b') /\
    forall k, utoa_required Base Value <= k -> b' k = b k.
Proof.
  intros HB HV Hcap. unfold utoa_required in *.
  destruct (finish_itoa_fits b (utoa_chars Base Value) cap) as (b' & Hrun & _ & _ & Hfr);
    [lia|].
  rewrite utoa_run by lia. eexists _, b'. split; [exact Hrun|].
  intros k Hk. apply Hfr. lia.
Qed.

Lemma utoa_stays_in_bounds_witness :
  exists r b',
    RML_COMM_utoa 255 (fun _ => 7) 20 16 = Some (r, b') /\
    forall k, utoa_required 16 255 <= k -> b' k = 7.
Proof.
  apply (utoa_stays_in_bounds 255 (fun _ => 7) 20 16); [lia | lia | vm_compute; discriminate].
Defined.

(** X4: the same for RML_COMM_itoa, sign included. *)
Theorem itoa_stays_in_bounds Value b cap Base :
  2 <= Base <= 36 -> - 2 ^ 31 <= Value < 2 ^ 31 -> itoa_required Base Value <= cap ->
  exists r b',
    RML_COMM_itoa Value b cap Base = Some (r, b') /\
    forall k, itoa_required Base Value <= k -> b' k = b k.
Proof.
  intros HB HV Hcap. unfold itoa_required in *.
  destruct (finish_itoa_fits b (itoa_chars Base Value) cap) as (b' & Hrun & _ & _ & Hfr);
    [lia|].
  rewrite itoa_run by lia. eexists _, b'. split; [exact Hrun|].
  intros k Hk. apply Hfr. lia.
Qed.

Lemma itoa_stays_in_bounds_witness :
  exists r b',
    RML_COMM_itoa (-255) (fun _ => 7) 20 10 = Some (r, b') /\
    forall k, itoa_required 10 (-255) <= k -> b' k = 7.
Proof.
  apply (itoa_stays_in_bounds (-255) (fun _ => 7) 20 10); [lia | lia | vm_compute; discriminate].
Defined.

(** X5: with a capacity of at least 1 but below the number of digits,
    RML_COMM_utoa reports -1 only after the digits were stored: the byte at
    offset [cap], the first one outside the buffer, holds a digit character
    when the call returns. *)
Theorem utoa_overflows_small_buffer Value b cap Base :
  2 <= Base <= 36 -> 0 <= Value < 2 ^ 32 ->
  1 <= cap < len (utoa_chars Base Value) ->
  exists b',
    RML_COMM_utoa Value b cap Base = Some (-1, b') /\
    b' cap = nth (Z.to_nat cap) (utoa_chars Base Value) 0 /\
    48 <= b' cap <= 90.
Proof.
  intros HB HV Hcap.
  rewrite utoa_run, finish_itoa_small by lia.
  eexists. split; [reflexivity|].
  assert (E : store (store_list b 0 (utoa_chars Base Value)) 0 0 cap
              = nth (Z.to_nat cap) (utoa_chars Base Value) 0).
  { unfold store. destruct (Z.eqb_spec cap 0); [lia|].
    rewrite <- (store_list_nth (utoa_chars Base Value) b 0 cap) by lia.
    reflexivity. }
  split; [exact E|]. rewrite E.
  pose proof (digit_chars_nonzero Base Value HB ltac:(lia)) as Hall.
  rewrite Forall_forall in Hall. apply Hall. apply nth_In.
  unfold utoa_chars, len in Hcap. lia.
Qed.

Lemma utoa_overflows_small_buffer_witness :
  exists b',
    RML_COMM_utoa 12345 (fun _ => 0) 2 10 = Some (-1, b') /\
    b' 2 = nth (Z.to_nat 2) (utoa_chars 10 12345) 0 /\
    48 <= b' 2 <= 90.
Proof.
  apply (utoa_overflows_small_buffer 12345 (fun _ => 0) 2 10);
    [lia | lia | vm_compute; split; [discriminate | reflexivity]].
Defined.

(** ** The shape of the digit strings *)

Lemma digits_lsb_top Base : 2 <= Base -> forall fuel v,
  (1 <= fuel)%nat -> 0 < v < 2 ^ Z.of_nat fuel ->
  exists l d, digits_lsb fuel Base v = l ++ [d] /\ 0 < d < Base.
Proof.
  intros HB. induction fuel as [|fuel IH]; intros v Hf Hv; [lia|].
  pose proof (div_base_lt Base fuel v HB ltac:(lia)) as Hq.
  pose proof (Z.mod_pos_bound v Base ltac:(lia)) as Hm.
  pose proof (Z.div_mod v Base ltac:(lia)) as Hdm.
  cbn [digits_lsb]. destruct (Z.eqb_spec (v / Base) 0) as [Hz|Hz].
  - exists [], (v mod Base). split; [reflexivity|]. rewrite Hz in Hdm. lia.
  - destruct (IH (v / Base)) as (l & d & El & Hd);
      [apply (pow_fuel_ge_1 fuel (v / Base)); lia | lia |].
    exists (v mod Base :: l), d. rewrite El. split; [reflexivity | exact Hd].
Qed.

(** X6: the string RML_COMM_utoa stores is canonical: it starts with '0'
    only when the value is 0, and for 0 it is exactly "0". *)
Theorem utoa_no_leading_zero Value b cap Base :
  2 <= Base <= 36 -> 0 <= Value < 2 ^ 32 -> utoa_required Base Value <= cap ->
  exists r b' s,
    RML_COMM_utoa Value b cap Base = Some (r, b') /\
    c_str 64 b' 0 = Some s /\
    (hd 0 s = code "0" -> Value = 0) /\
    (Value = 0 -> s = codes "0").
Proof.
  intros HB HV Hcap. unfold utoa_required in Hcap.
  pose proof (digit_chars_length Base Value) as Hl. fold (utoa_chars Base Value) in Hl.
  destruct (finish_itoa_string b (utoa_chars Base Value) cap) as (b' & Hrun & Hstr);
    [lia | lia | apply utoa_chars_nonzero; lia |].
  rewrite utoa_run by lia.
  eexists _, b', _. split; [exact Hrun|]. split; [exact Hstr|]. split.
  - intros Hhd. destruct (Z.eq_dec Value 0) as [E|E]; [exact E|].
    destruct (digits_lsb_top Base ltac:(lia) digit_fuel Value) as (l & d & El & Hd);
      [unfold digit_fuel; lia | unfold digit_fuel; lia |].
    unfold utoa_chars, digit_chars in Hhd. rewrite El, map_app, rev_app_distr in Hhd.
    cbn [map rev app hd] in Hhd. change (code "0") with 48 in Hhd.
    unfold to_digit in Hhd. destruct (d <? 10); lia.
  - intros ->. unfold utoa_chars, digit_chars, digit_fuel. cbn [digits_lsb].
    rewrite Z.mod_0_l, Z.div_0_l by lia. reflexivity.
Qed.

Lemma utoa_no_leading_zero_witness :
  exists r b' s,
    RML_COMM_utoa 0 (fun _ => 0) 20 10 = Some (r, b') /\
    c_str 64 b' 0 = Some s /\
    (hd 0 s = code "0" -> 0 = 0) /\
    (0 = 0 -> s = codes "0").
Proof.
  apply (utoa_no_leading_zero 0 (fun _ => 0) 20 10); [lia | lia | vm_compute; discriminate].
Defined.

(** ** The format scanner: integer conversions *)

Lemma digits_lsb_count Base : 2 <= Base -> forall fuel k v,
  (1 <= k)%nat -> 0 <= v < Base ^ Z.of_nat k ->
  (length (digits_lsb fuel Base v) <= k)%nat.
Proof.
  intros HB. induction fuel as [|fuel IH]; intros k v Hk Hv; cbn [digits_lsb length].
  - lia.
  - destruct (Z.eqb_spec (v / Base) 0) as [Hz|Hz]; cbn [length]; [lia|].
    destruct k as [|k]; [lia|].
    rewrite Nat2Z.inj_succ, Z.pow_succ_r in Hv by lia.
    assert (Hq : 0 <= v / Base < Base ^ Z.of_nat k).
    { split; [apply Z.div_pos; lia | apply Z.div_lt_upper_bound; lia]. }
    destruct k as [|k].
    + simpl in Hq. lia.
    + specialize (IH (S k) (v / Base) ltac:(lia) Hq). lia.
Qed.

Lemma uint32_range z : 0 <= uint32 z < 2 ^ 32.
Proof. unfold uint32. apply Z.mod_pos_bound. lia. Qed.

Lemma int32_range z : - 2 ^ 31 <= int32 z < 2 ^ 31.
Proof.
  unfold int32. pose proof (Z.mod_pos_bound (z + 2 ^ 31) (2 ^ 32) ltac:(lia)). lia.
Qed.

Lemma utoa_chars_decimal v : 0 <= v < 2 ^ 32 -> len (utoa_chars 10 v) <= 10.
Proof.
  intros Hv. unfold utoa_chars, digit_chars, len. rewrite length_map.
  pose proof (digits_lsb_count 10 ltac:(lia) digit_fuel 10 v ltac:(lia) ltac:(lia)). lia.
Qed.

Lemma utoa_chars_hex v : 0 <= v < 2 ^ 32 -> len (utoa_chars 16 v) <= 8.
Proof.
  intros Hv. unfold utoa_chars, digit_chars, len. rewrite length_map.
  pose proof (digits_lsb_count 16 ltac:(lia) digit_fuel 8 v ltac:(lia) ltac:(lia)). lia.
Qed.

Lemma itoa_chars_decimal v : - 2 ^ 31 <= v < 2 ^ 31 -> len (itoa_chars 10 v) <= 11.
Proof.
  intros Hv. unfold itoa_chars. rewrite len_app.
  pose proof (utoa_chars_decimal (Z.abs v) ltac:(lia)) as H. unfold utoa_chars in H.
  destruct ((v <? 0) && (10 =? 10));
    [change (len [code "-"]) with 1 | change (len (@nil Z)) with 0]; lia.
Qed.

(** A conversion that fits the 20 bytes of [IntStr] is followed by the
    emission of exactly its characters. *)
Lemma put_conv_finish IntStr l (k : buffer -> out) :
  len l < 20 -> Forall (fun c => c <> 0) l ->
  exists IntStr',
    put_conv (finish_itoa (store_list IntStr 0 l) (len l) 20) k = emit (rev l) (k IntStr').
Proof.
  intros Hlen Hnz.
  destruct (finish_itoa_fits IntStr l 20 Hlen) as (b' & Hrun & Hload & Hz & _).
  exists b'. unfold put_conv. rewrite Hrun.
  rewrite (c_str_load (length l) 20 b' 0 (rev l) Hload);
    [reflexivity | apply Forall_rev; exact Hnz | exact Hz | unfold len in Hlen; lia].
Qed.

Ltac scan_step :=
  cbn [vprintf_scan];
  repeat match goal with
    | |- context [Z.eqb (code ?a) (code ?b)] =>
        let v := eval vm_compute in (Z.eqb (code a) (code b)) in
        change (Z.eqb (code a) (code b)) with v
    | |- context [Z.eqb (code ?a) 0] =>
        change (Z.eqb (code a) 0) with false
    end;
  cbn [orb andb].

Lemma scan_u_emit n rest va IntStr :
  exists IntStr',
    vprintf_scan (code "%" :: code "u" :: rest) (VaInt n :: va) IntStr =
      emit (rev (utoa_chars 10 (uint32 n))) (vprintf_scan rest va IntStr').
Proof.
  pose proof (uint32_range n) as Hr.
  destruct (put_conv_finish IntStr (utoa_chars 10 (uint32 n)) (vprintf_scan rest va))
    as (IntStr' & Hput).
  { pose proof (utoa_chars_decimal (uint32 n) Hr). lia. }
  { apply utoa_chars_nonzero; lia. }
  exists IntStr'. scan_step. rewrite utoa_run by lia. exact Hput.
Qed.

(** X7: "%u" never fails: for every 32-bit argument the scanner sends its
    decimal digits to the sink, consumes that one argument and goes on with
    the rest; the digits reparse to the argument read as unsigned. *)
Theorem scan_unsigned n rest va IntStr :
  exists IntStr',
    vprintf_scan (code "%" :: code "u" :: rest) (VaInt n :: va) IntStr =
      emit (rev (utoa_chars 10 (uint32 n))) (vprintf_scan rest va IntStr') /\
    reparse 10 (rev (utoa_chars 10 (uint32 n))) = Some (uint32 n).
Proof.
  pose proof (uint32_range n) as Hr.
  destruct (scan_u_emit n rest va IntStr) as (IntStr' & Hscan).
  exists IntStr'. split; [exact Hscan|].
  apply reparse_digit_chars; lia.
Qed.

(** X8: "%d" and "%i" never fail: the argument read as a signed 32-bit value
    is sent as its decimal digits, preceded by '-' when negative; the most
    negative value included. *)
Theorem scan_signed s n rest va IntStr :
  s = code "d" \/ s = code "i" ->
  exists IntStr',
    vprintf_scan (code "%" :: s :: rest) (VaInt n :: va) IntStr =
      emit ((if int32 n <? 0 then [code "-"] else [])
            ++ rev (digit_chars 10 (Z.abs (int32 n))))
           (vprintf_scan rest va IntStr') /\
    reparse 10 (rev (digit_chars 10 (Z.abs (int32 n)))) = Some (Z.abs (int32 n)).
Proof.
  intros Hs. pose proof (int32_range n) as Hr.
  destruct (put_conv_finish IntStr (itoa_chars 10 (int32 n)) (vprintf_scan rest va))
    as (IntStr' & Hput).
  { pose proof (itoa_chars_decimal (int32 n) Hr). lia. }
  { apply itoa_chars_nonzero; lia. }
  exists IntStr'. split.
  - assert (E : rev (itoa_chars 10 (int32 n)) =
                (if int32 n <? 0 then [code "-"] else [])
                ++ rev (digit_chars 10 (Z.abs (int32 n)))).
    { unfold itoa_chars. rewrite rev_app_distr, Z.eqb_refl, andb_true_r.
      destruct (int32 n <? 0); reflexivity. }
    rewrite <- E, <- Hput.
    destruct Hs as [-> | ->]; scan_step; rewrite itoa_run by lia; reflexivity.
  - apply reparse_digit_chars; lia.
Qed.

Lemma scan_signed_witness :
  exists IntStr',
    vprintf_scan (code "%" :: code "d" :: []) (VaInt (-42) :: []) (fun _ => 0) =
      emit ((if int32 (-42) <? 0 then [code "-"] else [])
            ++ rev (digit_chars 10 (Z.abs (int32 (-42)))))
           (vprintf_scan [] [] IntStr') /\
    reparse 10 (rev (digit_chars 10 (Z.abs (int32 (-42))))) = Some (Z.abs (int32 (-42))).
Proof.
  apply (scan_signed (code "d") (-42) [] [] (fun _ => 0)). left. reflexivity.
Defined.

(** X9: "%x" and "%X" never fail and send the same characters: the
    hexadecimal digits of the argument with upper-case letters, no prefix. *)
Theorem scan_hex s n rest va IntStr :
  s = code "x" \/ s = code "X" ->
  exists IntStr',
    vprintf_scan (code "%" :: s :: rest) (VaInt n :: va) IntStr =
      emit (rev (utoa_chars 16 (uint32 n))) (vprintf_scan rest va IntStr') /\
    reparse 16 (rev (utoa_chars 16 (uint32 n))) = Some (uint32 n) /\
    Forall (fun c => 48 <= c <= 57 \/ 65 <= c <= 70) (rev (utoa_chars 16 (uint32 n))).
Proof.
  intros Hs. pose proof (uint32_range n) as Hr.
  destruct (put_conv_finish IntStr (utoa_chars 16 (uint32 n)) (vprintf_scan rest va))
    as (IntStr' & Hput).
  { pose proof (utoa_chars_hex (uint32 n) Hr). lia. }
  { apply utoa_chars_nonzero; lia. }
  exists IntStr'. split; [|split].
  - rewrite <- Hput.
    destruct Hs as [-> | ->]; scan_step; rewrite utoa_run by lia; reflexivity.
  - apply reparse_digit_chars; lia.
  - apply Forall_rev. unfold utoa_chars, digit_chars. apply Forall_map.
    eapply Forall_impl; [|apply (digits_lsb_range 16); lia].
    intros d Hd. cbv beta in Hd. unfold to_digit. destruct (Z.ltb_spec d 10); lia.
Qed.

Lemma scan_hex_witness :
  exists IntStr',
    vprintf_scan (code "%" :: code "x" :: []) (VaInt 255 :: []) (fun _ => 0) =
      emit (rev (utoa_chars 16 (uint32 255))) (vprintf_scan [] [] IntStr') /\
    reparse 16 (rev (utoa_chars 16 (uint32 255))) = Some (uint32 255) /\
    Forall (fun c => 48 <= c <= 57 \/ 65 <= c <= 70) (rev (utoa_chars 16 (uint32 255))).
Proof.
  apply (scan_hex (code "x") 255 [] [] (fun _ => 0)). left. reflexivity.
Defined.

(** ** The format scanner: literals and malformed specifiers *)

Lemma scan_literal_app l va IntStr : Forall literal l -> forall rest,
  vprintf_scan (l ++ rest) va IntStr = emit l (vprintf_scan rest va IntStr).
Proof.
  intros Hl. induction Hl as [|c l Hc Hl IH]; intros rest.
  - unfold emit. cbn [app]. destruct (vprintf_scan rest va IntStr). reflexivity.
  - cbn [app]. rewrite literal_char by exact Hc. rewrite IH.
    unfold emit. cbn [fst snd app]. reflexivity.
Qed.

(** X10: a run of characters with neither '%' nor the terminator is sent to
    the sink as it is, and the scan goes on behind it with the same
    arguments; a format made of such characters only is printed verbatim. *)
Theorem scan_literal_prefix l rest va IntStr :
  Forall literal l ->
  vprintf_scan (l ++ rest) va IntStr = emit l (vprintf_scan rest va IntStr) /\
  vprintf_scan l va IntStr = (l, Returned).
Proof.
  intros Hl. split; [apply scan_literal_app; exact Hl|].
  pose proof (scan_literal_app l va IntStr Hl []) as H.
  rewrite app_nil_r in H. rewrite H.
  unfold emit. cbn [vprintf_scan fst snd]. rewrite app_nil_r. reflexivity.
Qed.

Lemma scan_literal_prefix_witness :
  vprintf_scan (codes "ok: " ++ codes "%u") [VaInt 7] (fun _ => 0)
    = emit (codes "ok: ") (vprintf_scan (codes "%u") [VaInt 7] (fun _ => 0)) /\
  vprintf_scan (codes "ok: ") [VaInt 7] (fun _ => 0) = (codes "ok: ", Returned).
Proof.
  apply (scan_literal_prefix (codes "ok: ") (codes "%u") [VaInt 7] (fun _ => 0)).
  repeat constructor; discriminate.
Defined.

(** X11: after '%' a character that selects no conversion is sent to the
    sink behind a '%', and no argument is consumed. *)
Theorem scan_unknown_specifier s rest va IntStr :
  s <> 0 -> ~ In s specifiers ->
  vprintf_scan (code "%" :: s :: rest) va IntStr =
  emit [code "%"; s] (vprintf_scan rest va IntStr).
Proof.
  intros H0 Hn. scan_step.
  repeat match goal with
    | |- context [Z.eqb s ?c] =>
        destruct (Z.eqb_spec s c) as [E|E];
        [exfalso; apply Hn; rewrite E; vm_compute; intuition reflexivity | clear E]
    end.
  cbn [orb]. destruct (Z.eqb_spec s 0); [contradiction | reflexivity].
Qed.

Lemma scan_unknown_specifier_witness :
  vprintf_scan (code "%" :: code "q" :: []) [VaInt 7] (fun _ => 0) =
  emit [code "%"; code "q"] (vprintf_scan [] [VaInt 7] (fun _ => 0)).
Proof.
  apply (scan_unknown_specifier (code "q") [] [VaInt 7] (fun _ => 0)).
  - discriminate.
  - vm_compute. intuition discriminate.
Defined.

(** X12: behind "%.d" with d in '1'..'6' the scanner steps over one more
    character without looking at it; when the format ends at the digit, that
    step leaves the string and the scan has no defined continuation. *)
Theorem scan_precision_skips_blindly d x va IntStr :
  code "1" <= d <= code "6" ->
  snd (vprintf_scan [code "%"; code "."; d] (VaDouble x :: va) IntStr) = Undefined /\
  forall c1 c2 rest,
    vprintf_scan (code "%" :: code "." :: d :: c1 :: rest) (VaDouble x :: va) IntStr =
    vprintf_scan (code "%" :: code "." :: d :: c2 :: rest) (VaDouble x :: va) IntStr.
Proof.
  intros Hd.
  assert (Hr : (code "1" <=? d) && (d <=? code "6") = true).
  { apply andb_true_iff. split; apply Z.leb_le; lia. }
  split.
  - scan_step. rewrite Hr. unfold put_conv.
    destruct (RML_COMM_ftoa x IntStr 20 (d - code "0")) as [[r b]|]; [|reflexivity].
    destruct (c_str 20 b 0); reflexivity.
  - intros c1 c2 rest. scan_step. rewrite Hr. reflexivity.
Qed.

Lemma scan_precision_skips_blindly_witness :
  snd (vprintf_scan [code "%"; code "."; code "3"] (VaDouble 2.5 :: []) (fun _ => 0))
    = Undefined /\
  forall c1 c2 rest,
    vprintf_scan (code "%" :: code "." :: code "3" :: c1 :: rest) (VaDouble 2.5 :: [])
      (fun _ => 0) =
    vprintf_scan (code "%" :: code "." :: code "3" :: c2 :: rest) (VaDouble 2.5 :: [])
      (fun _ => 0).
Proof.
  apply (scan_precision_skips_blindly (code "3") 2.5 [] (fun _ => 0)).
  vm_compute. split; discriminate.
Defined.

(** ** RML_COMM_ftoa: the whole part *)

Lemma ftoa_whole_digits W b cap :
  0 <= W < 2 ^ 31 -> len (digit_chars 10 W) <= cap < 2 ^ 32 ->
  ftoa_whole digit_fuel W b 0 cap =
  Next (store_list b 0 (digit_chars 10 W), len (digit_chars 10 W)).
Proof.
  intros HW Hcap.
  assert (E : len (digits_lsb digit_fuel 10 W) = len (digit_chars 10 W)).
  { unfold digit_chars, len. rewrite length_map. reflexivity. }
  rewrite (ftoa_whole_spec cap);
    [ | lia | unfold digit_fuel; lia | unfold digit_fuel; lia | lia | lia ].
  rewrite E. reflexivity.
Qed.

(** The state after the sign step when everything fits. *)
Lemma ftoa_upto_sign W b cap :
  - 2 ^ 31 < W < 2 ^ 31 -> len (ftoa_whole_chars W) <= cap < 2 ^ 32 ->
  exists flag,
    ftoa_whole digit_fuel (Z.abs W) b 0 cap =
      Next (store_list b 0 (digit_chars 10 (Z.abs W)), len (digit_chars 10 (Z.abs W))) /\
    (flag = if W <? 0 then 1 else 0) /\
    ftoa_sign flag (store_list b 0 (digit_chars 10 (Z.abs W)))
      (len (digit_chars 10 (Z.abs W))) cap =
    (store_list b 0 (ftoa_whole_chars W), len (ftoa_whole_chars W)).
Proof.
  intros HW Hcap. unfold ftoa_whole_chars in *. rewrite len_app in Hcap.
  pose proof (digit_chars_length 10 (Z.abs W)) as Hl.
  exists (if W <? 0 then 1 else 0). split; [|split; [reflexivity|]].
  - apply ftoa_whole_digits; [lia|].
    destruct (W <? 0);
      [change (len [code "-"]) with 1 in Hcap | change (len (@nil Z)) with 0 in Hcap]; lia.
  - unfold ftoa_sign. destruct (Z.ltb_spec W 0).
    + change (len [code "-"]) with 1 in Hcap.
      change (negb (1 =? 0)) with true. cbn [andb].
      destruct (Z.ltb_spec (len (digit_chars 10 (Z.abs W))) cap); [|lia].
      rewrite uint32_small by lia. rewrite store_list_snoc, len_app.
      reflexivity.
    + cbn [negb Z.eqb andb]. rewrite app_nil_r. reflexivity.
Qed.

Lemma ftoa_whole_chars_nonzero W : Forall (fun c => c <> 0) (ftoa_whole_chars W).
Proof.
  unfold ftoa_whole_chars. apply Forall_app. split.
  - eapply Forall_impl; [|apply (digit_chars_nonzero 10); lia].
    intros c Hc. cbv beta in Hc. lia.
  - destruct (W <? 0); repeat constructor. discriminate.
Qed.

Lemma ftoa_whole_chars_length W : 1 <= len (ftoa_whole_chars W) <= 33.
Proof.
  unfold ftoa_whole_chars. rewrite len_app.
  pose proof (digit_chars_length 10 (Z.abs W)).
  destruct (W <? 0);
    [change (len [code "-"]) with 1 | change (len (@nil Z)) with 0]; lia.
Qed.

(** X13: with no decimal places and room for the terminator, RML_COMM_ftoa
    stores the truncated value as decimal digits, with '-' in front when the
    whole part is negative, returns the length of that string and changes
    nothing behind the terminator. *)
Theorem ftoa_integer_rendering Value WholePart b BuffSize :
  cast_int32 Value = Some WholePart ->
  - 2 ^ 31 < WholePart < 2 ^ 31 ->
  len (ftoa_whole_chars WholePart) < BuffSize < 2 ^ 32 ->
  exists b',
    RML_COMM_ftoa Value b BuffSize 0 = Some (len (ftoa_whole_chars WholePart), b') /\
    c_str 64 b' 0 = Some (rev (ftoa_whole_chars WholePart)) /\
    forall k, len (ftoa_whole_chars WholePart) < k -> b' k = b k.
Proof.
  intros Hcast HW Hcap.
  pose proof (ftoa_whole_chars_length WholePart) as Hl.
  destruct (ftoa_upto_sign WholePart b BuffSize HW ltac:(lia)) as (flag & Hwhole & Hflag & Hsign).
  destruct (ReverseString_spec b (ftoa_whole_chars WholePart))
    as (b2 & Hrev & Hload & Habove); [lia | lia |].
  exists (store b2 (len (ftoa_whole_chars WholePart)) 0).
  split; [|split].
  - assert (Etail : run ('(b3, i) <- ftoa_point 0 (PrimFloat.sub Value 0)
                                      b2 (len (ftoa_whole_chars WholePart)) BuffSize ;;
                          Next (ftoa_finish b3 i BuffSize))
                    = Some (len (ftoa_whole_chars WholePart),
                            store b2 (len (ftoa_whole_chars WholePart)) 0)).
    { unfold ftoa_point, ftoa_finish. cbn [Z.gtb Z.compare bind run].
      rewrite int32_small, (uint32_small (len (ftoa_whole_chars WholePart) + 1)) by lia.
      replace (len (ftoa_whole_chars WholePart) + 1 >? BuffSize) with false
        by (symmetry; rewrite Z.gtb_ltb; apply Z.ltb_ge; lia).
      reflexivity. }
    unfold ftoa_point in Etail. cbn [Z.gtb Z.compare bind] in Etail.
    unfold RML_COMM_ftoa. rewrite Hcast. cbv zeta.
    destruct (Z.ltb_spec WholePart 0) as [Hn|Hn].
    + replace (WholePart <? 0) with true in Hflag by (symmetry; apply Z.ltb_lt; lia).
      rewrite Hflag in Hsign.
      rewrite int32_small by lia. replace (- WholePart) with (Z.abs WholePart) by lia.
      rewrite Hwhole. cbn [bind]. rewrite Hsign, Hrev. cbn [bind].
      unfold ftoa_point. cbn [Z.gtb Z.compare bind]. exact Etail.
    + replace (WholePart <? 0) with false in Hflag by (symmetry; apply Z.ltb_ge; lia).
      rewrite Hflag in Hsign.
      replace (Z.abs WholePart) with WholePart in Hwhole, Hsign by lia.
      rewrite Hwhole. cbn [bind]. rewrite Hsign, Hrev. cbn [bind].
      unfold ftoa_point. cbn [Z.gtb Z.compare bind]. exact Etail.
  - apply (c_str_load (length (ftoa_whole_chars WholePart))).
    + rewrite <- Hload. apply load_ext. intros j Hj.
      fold (len (ftoa_whole_chars WholePart)) in Hj. unfold store. zbool.
    + apply Forall_rev, ftoa_whole_chars_nonzero.
    + fold (len (ftoa_whole_chars WholePart)). unfold store.
      rewrite Z.add_0_l, Z.eqb_refl. reflexivity.
    + unfold len in Hl. lia.
  - intros k Hk. unfold store. zbool. apply Habove. lia.
Qed.

Lemma ftoa_integer_rendering_witness :
  exists b',
    RML_COMM_ftoa (-42.75) (fun _ => 7) 20 0 = Some (len (ftoa_whole_chars (-42)), b') /\
    c_str 64 b' 0 = Some (rev (ftoa_whole_chars (-42))) /\
    forall k, len (ftoa_whole_chars (-42)) < k -> b' k = 7.
Proof.
  apply (ftoa_integer_rendering (-42.75) (-42) (fun _ => 7) 20);
    [reflexivity | lia | vm_compute; split; reflexivity].
Defined.

Lemma ftoa_whole_overflow cap : forall fuel W b i,
  (1 <= fuel)%nat -> 0 <= W < 2 ^ Z.of_nat fuel -> 0 <= i <= cap -> cap < 2 ^ 32 ->
  cap < i + len (digits_lsb fuel 10 W) ->
  exists b'',
    ftoa_whole fuel W b i cap = Return (-1) (store b'' 0 0) /\
    forall k, cap <= k -> b'' k = b k.
Proof.
  induction fuel as [|fuel IH]; intros W b i Hf HW Hi Hcap Hover; [lia|].
  pose proof (div_base_lt 10 fuel W ltac:(lia) HW) as Hq.
  cbn [ftoa_whole digits_lsb] in *.
  destruct (Z.ltb_spec i cap) as [Hlt|Hge].
  - rewrite Z.quot_div_nonneg by lia. rewrite (uint32_small (i + 1)) by lia.
    destruct (Z.eqb_spec (W / 10) 0) as [Hz|Hz].
    + unfold len in Hover. cbn [length] in Hover. lia.
    + replace (W / 10 >? 0) with true by (symmetry; apply Z.gtb_lt; lia).
      destruct (IH (W / 10) (store b i (uint8 (Z.rem W 10 + code "0"))) (i + 1))
        as (b'' & Hrun & Hfr);
        [apply (pow_fuel_ge_1 fuel (W / 10)); lia | lia | lia | lia | |].
      { unfold len in *. cbn [length] in Hover. lia. }
      exists b''. split; [exact Hrun|].
      intros k Hk. rewrite Hfr by lia. unfold store. zbool.
  - exists b. split; [reflexivity|]. intros k Hk. reflexivity.
Qed.

(** X14: when the digits of the whole part alone do not fit the capacity,
    RML_COMM_ftoa returns -1, leaves an empty string and has written nothing
    at or beyond the capacity (the first byte apart), whatever the number of
    decimal places. *)
Theorem ftoa_whole_part_too_long Value WholePart b BuffSize Afterpoint :
  cast_int32 Value = Some WholePart ->
  - 2 ^ 31 < WholePart < 2 ^ 31 ->
  0 <= BuffSize < len (digit_chars 10 (Z.abs WholePart)) ->
  exists b',
    RML_COMM_ftoa Value b BuffSize Afterpoint = Some (-1, b') /\
    b' 0 = 0 /\
    forall k, BuffSize <= k -> k <> 0 -> b' k = b k.
Proof.
  intros Hcast HW Hcap.
  pose proof (digit_chars_length 10 (Z.abs WholePart)) as Hl.
  destruct (ftoa_whole_overflow BuffSize digit_fuel (Z.abs WholePart) b 0)
    as (b'' & Hrun & Hfr);
    [unfold digit_fuel; lia | unfold digit_fuel; lia | lia | lia | |].
  { unfold digit_chars, len in *. rewrite length_map in Hcap. lia. }
  exists (store b'' 0 0). split; [|split].
  - unfold RML_COMM_ftoa. rewrite Hcast. cbv zeta.
    destruct (Z.ltb_spec WholePart 0) as [Hn|Hn].
    + rewrite int32_small by lia. replace (- WholePart) with (Z.abs WholePart) by lia.
      rewrite Hrun. reflexivity.
    + replace (Z.abs WholePart) with WholePart in Hrun by lia.
      rewrite Hrun. reflexivity.
  - unfold store. rewrite Z.eqb_refl. reflexivity.
  - intros k Hk Hk0. unfold store. destruct (Z.eqb_spec k 0); [contradiction|].
    apply Hfr. exact Hk.
Qed.

Lemma ftoa_whole_part_too_long_witness :
  exists b',
    RML_COMM_ftoa (-12345.5) (fun _ => 7) 3 2 = Some (-1, b') /\
    b' 0 = 0 /\
    forall k, 3 <= k -> k <> 0 -> b' k = 7.
Proof.
  apply (ftoa_whole_part_too_long (-12345.5) (-12345) (fun _ => 7) 3 2);
    [reflexivity | lia | vm_compute; split; [discriminate | reflexivity]].
Defined.

(** ** RML_COMM_ftoa: what it can write *)

Lemma ftoa_whole_frame cap : cap < 2 ^ 32 -> forall fuel W b i,
  0 <= i <= cap ->
  match ftoa_whole fuel W b i cap with
  | Next (b', i') => i < i' <= cap /\ forall k, cap <= k -> b' k = b k
  | Return _ b' => forall k, cap < k -> b' k = b k
  | Stuck => True
  end.
Proof.
  intros Hcap. induction fuel as [|fuel IH]; intros W b i Hi; cbn [ftoa_whole]; [exact I|].
  destruct (Z.ltb_spec i cap) as [Hlt|Hge].
  - rewrite (uint32_small (i + 1)) by lia.
    destruct (Z.quot W 10 >? 0).
    + specialize (IH (Z.quot W 10) (store b i (uint8 (Z.rem W 10 + code "0"))) (i + 1)
                     ltac:(lia)).
      destruct (ftoa_whole fuel (Z.quot W 10) _ (i + 1) cap) as [[b' i']|r b'|].
      * destruct IH as [Hi' Hfr]. split; [lia|].
        intros k Hk. rewrite Hfr by lia. unfold store. zbool.
      * intros k Hk. rewrite IH by lia. unfold store. zbool.
      * exact I.
    + split; [lia|]. intros k Hk. unfold store. zbool.
  - intros k Hk. unfold store. zbool.
Qed.

Lemma ftoa_fraction_frame cap : cap < 2 ^ 32 -> forall n FractionalPart b i,
  0 <= i <= cap ->
  match ftoa_fraction n FractionalPart b i cap with
  | Next (b', i') => i <= i' <= cap /\ forall k, cap <= k -> b' k = b k
  | Return _ b' => forall k, cap < k -> b' k = b k
  | Stuck => True
  end.
Proof.
  intros Hcap. induction n as [|n IH]; intros FP b i Hi; cbn [ftoa_fraction].
  - split; [lia|]. intros k Hk. reflexivity.
  - destruct (cast_int32 (FP * 10)%float) as [digit|]; [|exact I].
    destruct (Z.ltb_spec i cap) as [Hlt|Hge].
    + rewrite (uint32_small (i + 1)) by lia.
      specialize (IH (FP * 10 - double_of_int32 digit)%float
                     (store b i (uint8 (digit + code "0"))) (i + 1) ltac:(lia)).
      destruct (ftoa_fraction n _ _ (i + 1) cap) as [[b' i']|r b'|].
      * destruct IH as [Hi' Hfr]. split; [lia|].
        intros k Hk. rewrite Hfr by lia. unfold store. zbool.
      * intros k Hk. rewrite IH by lia. unfold store. zbool.
      * exact I.
    + intros k Hk. unfold store. zbool.
Qed.

(** X15: whatever the value and the number of decimal places, a call of
    RML_COMM_ftoa that returns has changed no byte beyond offset [BuffSize].
    (The byte at offset [BuffSize] itself, one past the buffer, can be.) *)
Theorem ftoa_writes_at_most_one_past Value b BuffSize Afterpoint r b' :
  0 <= BuffSize < 2 ^ 32 ->
  RML_COMM_ftoa Value b BuffSize Afterpoint = Some (r, b') ->
  forall k, BuffSize < k -> b' k = b k.
Proof.
  intros Hcap Hrun k Hk. unfold RML_COMM_ftoa in Hrun.
  destruct (cast_int32 Value) as [W|]; [|discriminate]. cbv zeta in Hrun.
  set (triple := if W <? 0 then _ else _) in Hrun.
  destruct triple as [[flag W'] FP]. 
  pose proof (ftoa_whole_frame BuffSize ltac:(lia) digit_fuel W' b 0 ltac:(lia)) as Hw.
  destruct (ftoa_whole digit_fuel W' b 0 BuffSize) as [[b1 i1]|r1 b1|];
    cbn [bind run] in Hrun; [| injection Hrun as <- <-; apply Hw; lia | discriminate].
  destruct Hw as [Hi1 Hfr1].
  assert (Hs : exists b2 i2, ftoa_sign flag b1 i1 BuffSize = (b2, i2) /\
                             1 <= i2 <= BuffSize /\ forall k, BuffSize <= k -> b2 k = b k).
  { unfold ftoa_sign. destruct (negb (flag =? 0) && (i1 <? BuffSize)) eqn:E.
    - apply andb_true_iff in E as [_ E]. apply Z.ltb_lt in E.
      eexists _, _. split; [reflexivity|]. rewrite uint32_small by lia.
      split; [lia|]. intros j Hj. unfold store. zbool. apply Hfr1. lia.
    - eexists _, _. split; [reflexivity|]. split; [lia | exact Hfr1]. }
  destruct Hs as (b2 & i2 & Hsign & Hi2 & Hfr2). rewrite Hsign in Hrun.
  destruct (ReverseString_pointwise b2 i2 ltac:(lia)) as (b3 & Hrev & Hpt).
  rewrite Hrev in Hrun. cbn [bind] in Hrun.
  assert (Hfr3 : forall j, BuffSize <= j -> b3 j = b j).
  { intros j Hj. rewrite Hpt. zbool. apply Hfr2. lia. }
  assert (Hp : match ftoa_point Afterpoint FP b3 i2 BuffSize with
               | Next (b4, i4) => 0 <= i4 <= BuffSize /\ forall j, BuffSize <= j -> b4 j = b j
               | Return _ b4 => forall j, BuffSize < j -> b4 j = b j
               | Stuck => True
               end).
  { unfold ftoa_point. destruct (Afterpoint >? 0).
    - destruct (Z.ltb_spec i2 BuffSize) as [Hlt|Hge].
      + rewrite uint32_small by lia.
        pose proof (ftoa_fraction_frame BuffSize ltac:(lia) (Z.to_nat Afterpoint) FP
                      (store b3 i2 (code ".")) (i2 + 1) ltac:(lia)) as Hf.
        destruct (ftoa_fraction _ _ _ (i2 + 1) BuffSize) as [[b4 i4]|r4 b4|].
        * destruct Hf as [Hi4 Hfr4]. split; [lia|].
          intros j Hj. rewrite Hfr4 by lia. unfold store. zbool. apply Hfr3. lia.
        * intros j Hj. rewrite Hf by lia. unfold store. zbool. apply Hfr3. lia.
        * exact I.
      + intros j Hj. unfold store. zbool. apply Hfr3. lia.
    - split; [lia | exact Hfr3]. }
  destruct (ftoa_point Afterpoint FP b3 i2 BuffSize) as [[b4 i4]|r4 b4|];
    cbn [bind run] in Hrun; [| injection Hrun as <- <-; apply Hp; lia | discriminate].
  destruct Hp as [Hi4 Hfr4]. unfold ftoa_finish in Hrun. injection Hrun as <- <-.
  destruct (uint32 (i4 + 1) >? BuffSize); unfold store; zbool; apply Hfr4; lia.
Qed.

Lemma ftoa_writes_at_most_one_past_witness :
  exists b',
    RML_COMM_ftoa 5 (fun _ => 7) 1 2 = Some (-1, b') /\
    b' 1 = 0 /\
    forall k, 1 < k -> b' k = 7.
Proof.
  eexists. split; [reflexivity|]. split; [reflexivity|].
  apply (ftoa_writes_at_most_one_past 5 (fun _ => 7) 1 2 (-1)); [lia | reflexivity].
Defined.

(** ** The logger *)

Lemma put_put st a b : put (put st a) b = put st (a ++ b).
Proof. unfold put. cbn [Logger_InitDone LogLevelsEnable sink]. rewrite app_assoc. reflexivity. Qed.

Lemma vprintf_ready st InputStr va IntStr :
  Logger_InitDone st <> 0 ->
  RML_COMM_vprintf st InputStr va IntStr =
  (put st (fst (vprintf_scan InputStr va IntStr)), snd (vprintf_scan InputStr va IntStr)).
Proof.
  intros H. unfold RML_COMM_vprintf.
  destruct (Z.eqb_spec (Logger_InitDone st) 0); [contradiction|].
  destruct (vprintf_scan InputStr va IntStr). reflexivity.
Qed.

(** What a message that passes the gate sends to the sink. *)
Lemma LogMsg_emits st Src LogLvl Msg va IntStr ColorStr unknown cs e :
  Logger_InitDone st <> 0 ->
  level_gate st LogLvl = Some (ColorStr, unknown) ->
  vprintf_scan Msg va IntStr = (cs, e) ->
  RML_COMM_LogMsg st Src LogLvl Msg va IntStr =
  (put st (codes ColorStr ++ codes "> ["
           ++ (if unknown then codes "Unknown LogLvl?"
               else codes (nth (Z.to_nat LogLvl) LogLevel_Str EmptyString))
           ++ codes "] " ++ Src ++ codes ": " ++ cs
           ++ match e with Returned => codes ANSI_RESET ++ [13; 10] | Undefined => [] end),
   e).
Proof.
  intros Hinit Hgate Hscan. unfold RML_COMM_LogMsg.
  destruct (Z.eqb_spec (Logger_InitDone st) 0); [contradiction|].
  rewrite Hgate. cbv zeta.
  destruct unknown;
    (rewrite vprintf_ready by exact Hinit);
    rewrite Hscan; cbn [fst snd]; destruct e;
    rewrite !put_put; rewrite <- ?app_assoc; rewrite ?app_nil_r; reflexivity.
Qed.

Ltac level_case H :=
  match type of H with
  | context [Z.to_nat ?z] =>
      let v := eval vm_compute in (Z.to_nat z) in change (Z.to_nat z) with v in H
  end;
  unfold e_DEBUG, e_INFO, e_WARNING, e_ERROR, e_FATAL; cbn [Z.eqb Pos.eqb].

Lemma level_gate_enabled st LogLvl :
  0 <= LogLvl <= 4 -> nth (Z.to_nat LogLvl) (LogLevelsEnable st) 0 <> 0 ->
  level_gate st LogLvl = Some (EmptyString, false).
Proof.
  intros HL Hen.
  assert (E : LogLvl = 0 \/ LogLvl = 1 \/ LogLvl = 2 \/ LogLvl = 3 \/ LogLvl = 4) by lia.
  unfold level_gate.
  destruct E as [->|[->|[->|[->| ->]]]]; level_case Hen;
    apply Z.eqb_neq in Hen; rewrite Hen; reflexivity.
Qed.

Lemma level_gate_disabled st LogLvl :
  0 <= LogLvl <= 4 -> nth (Z.to_nat LogLvl) (LogLevelsEnable st) 0 = 0 ->
  level_gate st LogLvl = None.
Proof.
  intros HL Hen.
  assert (E : LogLvl = 0 \/ LogLvl = 1 \/ LogLvl = 2 \/ LogLvl = 3 \/ LogLvl = 4) by lia.
  unfold level_gate.
  destruct E as [->|[->|[->|[->| ->]]]]; level_case Hen;
    rewrite Hen; reflexivity.
Qed.

Lemma level_gate_unknown st LogLvl :
  LogLvl < 0 \/ 4 < LogLvl -> level_gate st LogLvl = Some (EmptyString, true).
Proof.
  intros HL. unfold level_gate, e_DEBUG, e_INFO, e_WARNING, e_ERROR, e_FATAL.
  repeat match goal with
    | |- context [Z.eqb LogLvl ?c] => destruct (Z.eqb_spec LogLvl c); [lia|]
    end.
  reflexivity.
Qed.

Lemma LogMsg_line_format_aux st Src LogLvl Msg va IntStr cs :
  Logger_InitDone st <> 0 ->
  0 <= LogLvl <= 4 ->
  nth (Z.to_nat LogLvl) (LogLevelsEnable st) 0 <> 0 ->
  vprintf_scan Msg va IntStr = (cs, Returned) ->
  RML_COMM_LogMsg st Src LogLvl Msg va IntStr =
  (put st (codes "> [" ++ codes (nth (Z.to_nat LogLvl) LogLevel_Str EmptyString)
           ++ codes "] " ++ Src ++ codes ": " ++ cs ++ [13; 10]),
   Returned).
Proof.
  intros Hinit HL Hen Hscan.
  rewrite (LogMsg_emits st Src LogLvl Msg va IntStr EmptyString false cs Returned Hinit
             (level_gate_enabled st LogLvl HL Hen) Hscan).
  reflexivity.
Qed.

(** X16: a message at one of the five levels, while that level is enabled
    and the logger initialised, reaches the sink as "> [LEVEL] source:
    text" followed by carriage return and line feed, the text being what the
    format scanner produces. *)
Theorem LogMsg_line_format st Src LogLvl Msg va IntStr cs :
  Logger_InitDone st <> 0 ->
  0 <= LogLvl <= 4 ->
  nth (Z.to_nat LogLvl) (LogLevelsEnable st) 0 <> 0 ->
  vprintf_scan Msg va IntStr = (cs, Returned) ->
  RML_COMM_LogMsg st Src LogLvl Msg va IntStr =
  (put st (codes "> [" ++ codes (nth (Z.to_nat LogLvl) LogLevel_Str EmptyString)
           ++ codes "] " ++ Src ++ codes ": " ++ cs ++ [13; 10]),
   Returned).
Proof. apply LogMsg_line_format_aux. Qed.

Lemma LogMsg_line_format_witness :
  RML_COMM_LogMsg (mkLogger 1 [1; 1; 1; 1; 1] []) (codes "main") 2 (codes "n=%u") [VaInt 7]
    (fun _ => 0) =
  (put (mkLogger 1 [1; 1; 1; 1; 1] [])
     (codes "> [" ++ codes (nth (Z.to_nat 2) LogLevel_Str EmptyString)
      ++ codes "] " ++ codes "main" ++ codes ": " ++ codes "n=7" ++ [13; 10]),
   Returned).
Proof.
  apply (LogMsg_line_format (mkLogger 1 [1; 1; 1; 1; 1] []) (codes "main") 2 (codes "n=%u")
           [VaInt 7] (fun _ => 0) (codes "n=7"));
    [discriminate | lia | discriminate | reflexivity].
Defined.

(** X17: a level outside 0..4 is never filtered: whatever the enable flags,
    an initialised logger prints the message under the label
    "Unknown LogLvl?". *)
Theorem LogMsg_unknown_level_always_logged st Src LogLvl Msg va IntStr cs :
  Logger_InitDone st <> 0 ->
  LogLvl < 0 \/ 4 < LogLvl ->
  vprintf_scan Msg va IntStr = (cs, Returned) ->
  RML_COMM_LogMsg st Src LogLvl Msg va IntStr =
  (put st (codes "> [Unknown LogLvl?] " ++ Src ++ codes ": " ++ cs ++ [13; 10]), Returned).
Proof.
  intros Hinit HL Hscan.
  rewrite (LogMsg_emits st Src LogLvl Msg va IntStr EmptyString true cs Returned Hinit
             (level_gate_unknown st LogLvl HL) Hscan).
  reflexivity.
Qed.

Lemma LogMsg_unknown_level_always_logged_witness :
  RML_COMM_LogMsg (mkLogger 1 [0; 0; 0; 0; 0] []) (codes "main") 9 (codes "hi") []
    (fun _ => 0) =
  (put (mkLogger 1 [0; 0; 0; 0; 0] [])
     (codes "> [Unknown LogLvl?] " ++ codes "main" ++ codes ": " ++ codes "hi" ++ [13; 10]),
   Returned).
Proof.
  apply (LogMsg_unknown_level_always_logged (mkLogger 1 [0; 0; 0; 0; 0] []) (codes "main") 9
           (codes "hi") [] (fun _ => 0) (codes "hi"));
    [discriminate | lia | reflexivity].
Defined.

(** ** Switching levels *)

Lemma five_levels st :
  length (LogLevelsEnable st) = 5%nat ->
  exists a0 a1 a2 a3 a4, LogLevelsEnable st = [a0; a1; a2; a3; a4].
Proof.
  intros H. destruct (LogLevelsEnable st) as [|a0 [|a1 [|a2 [|a3 [|a4 [|a5 l]]]]]];
    try discriminate H.
  exists a0, a1, a2, a3, a4. reflexivity.
Qed.

Ltac level_cases L :=
  let E := fresh "E" in
  assert (E : L = 0 \/ L = 1 \/ L = 2 \/ L = 3 \/ L = 4) by lia;
  destruct E as [->|[->|[->|[->| ->]]]].

(** X18: on an initialised logger, disabling one of the five levels returns
    0, writes nothing, makes every later message at that level return
    without output, and leaves the switches of the other levels alone. *)
Theorem LogLevelSet_disable_silences st LogLvl :
  Logger_InitDone st <> 0 -> length (LogLevelsEnable st) = 5%nat -> 0 <= LogLvl <= 4 ->
  exists st1,
    RML_COMM_LogLevelSet st LogLvl 0 = (0, st1) /\
    sink st1 = sink st /\
    (forall Src Msg va IntStr,
       RML_COMM_LogMsg st1 Src LogLvl Msg va IntStr = (st1, Returned)) /\
    (forall other, 0 <= other <= 4 -> other <> LogLvl ->
       nth (Z.to_nat other) (LogLevelsEnable st1) 0
       = nth (Z.to_nat other) (LogLevelsEnable st) 0).
Proof.
  intros Hinit Hlen HL.
  destruct (five_levels st Hlen) as (a0 & a1 & a2 & a3 & a4 & Elv).
  unfold RML_COMM_LogLevelSet.
  destruct (Z.eqb_spec (Logger_InitDone st) 0); [contradiction|].
  rewrite Elv. cbv zeta.
  level_cases LogLvl; (eexists; split; [reflexivity|]); (split; [reflexivity|]); split;
    try (intros Src Msg va IntStr; unfold RML_COMM_LogMsg;
         cbn [Logger_InitDone LogLevelsEnable];
         destruct (Z.eqb_spec (Logger_InitDone st) 0); [contradiction | reflexivity]);
    intros other Ho Hne; level_cases other; try contradiction; reflexivity.
Qed.

Lemma LogLevelSet_disable_silences_witness :
  exists st1,
    RML_COMM_LogLevelSet (mkLogger 1 [1; 1; 1; 1; 1] []) 2 0 = (0, st1) /\
    sink st1 = sink (mkLogger 1 [1; 1; 1; 1; 1] []) /\
    (forall Src Msg va IntStr,
       RML_COMM_LogMsg st1 Src 2 Msg va IntStr = (st1, Returned)) /\
    (forall other, 0 <= other <= 4 -> other <> 2 ->
       nth (Z.to_nat other) (LogLevelsEnable st1) 0
       = nth (Z.to_nat other) (LogLevelsEnable (mkLogger 1 [1; 1; 1; 1; 1] [])) 0).
Proof.
  apply (LogLevelSet_disable_silences (mkLogger 1 [1; 1; 1; 1; 1] []) 2);
    [discriminate | reflexivity | lia].
Defined.

(** X19: enabling a level with any value from 1 to 255 stores 1: the
    argument is clamped, the level then passes the gate, and the other
    switches, the initialisation flag and the sink stay as they were. *)
Theorem LogLevelSet_enable_clamps st LogLvl Enable :
  Logger_InitDone st <> 0 -> length (LogLevelsEnable st) = 5%nat -> 0 <= LogLvl <= 4 ->
  1 <= Enable <= 255 ->
  exists st1,
    RML_COMM_LogLevelSet st LogLvl Enable = (0, st1) /\
    nth (Z.to_nat LogLvl) (LogLevelsEnable st1) 0 = 1 /\
    level_gate st1 LogLvl = Some (EmptyString, false) /\
    Logger_InitDone st1 = Logger_InitDone st /\ sink st1 = sink st /\
    length (LogLevelsEnable st1) = 5%nat /\
    (forall other, 0 <= other <= 4 -> other <> LogLvl ->
       nth (Z.to_nat other) (LogLevelsEnable st1) 0
       = nth (Z.to_nat other) (LogLevelsEnable st) 0).
Proof.
  intros Hinit Hlen HL HE.
  destruct (five_levels st Hlen) as (a0 & a1 & a2 & a3 & a4 & Elv).
  unfold RML_COMM_LogLevelSet.
  destruct (Z.eqb_spec (Logger_InitDone st) 0); [contradiction|].
  rewrite Elv. cbv zeta.
  assert (Ecl : (if Enable >? 1 then 1 else Enable) = 1).
  { destruct (Z.gtb_spec Enable 1); lia. }
  rewrite Ecl.
  level_cases LogLvl; (eexists; split; [reflexivity|]);
    (split; [reflexivity|]); (split; [reflexivity|]);
    (split; [reflexivity|]); (split; [reflexivity|]); (split; [reflexivity|]);
    intros other Ho Hne; level_cases other; try contradiction; reflexivity.
Qed.

Lemma LogLevelSet_enable_clamps_witness :
  exists st1,
    RML_COMM_LogLevelSet (mkLogger 1 [1; 1; 0; 1; 1] []) 2 200 = (0, st1) /\
    nth (Z.to_nat 2) (LogLevelsEnable st1) 0 = 1 /\
    level_gate st1 2 = Some (EmptyString, false) /\
    Logger_InitDone st1 = Logger_InitDone (mkLogger 1 [1; 1; 0; 1; 1] []) /\
    sink st1 = sink (mkLogger 1 [1; 1; 0; 1; 1] []) /\
    length (LogLevelsEnable st1) = 5%nat /\
    (forall other, 0 <= other <= 4 -> other <> 2 ->
       nth (Z.to_nat other) (LogLevelsEnable st1) 0
       = nth (Z.to_nat other) (LogLevelsEnable (mkLogger 1 [1; 1; 0; 1; 1] [])) 0).
Proof.
  apply (LogLevelSet_enable_clamps (mkLogger 1 [1; 1; 0; 1; 1] []) 2 200);
    [discriminate | reflexivity | lia | lia].
Defined.

(** ** Runs of calls *)

Lemma vprintf_shape st InputStr va IntStr :
  exists out, fst (RML_COMM_vprintf st InputStr va IntStr) = put st out.
Proof.
  unfold RML_COMM_vprintf. destruct (Logger_InitDone st =? 0).
  - exists []. unfold put. rewrite app_nil_r. destruct st; reflexivity.
  - destruct (vprintf_scan InputStr va IntStr) as [cs e]. exists cs. reflexivity.
Qed.

Lemma LogMsg_shape st Src LogLvl Msg va IntStr :
  exists out, fst (RML_COMM_LogMsg st Src LogLvl Msg va IntStr) = put st out.
Proof.
  assert (Hid : st = put st []).
  { unfold put. rewrite app_nil_r. destruct st; reflexivity. }
  unfold RML_COMM_LogMsg. destruct (Z.eqb_spec (Logger_InitDone st) 0).
  - exists []. exact Hid.
  - destruct (level_gate st LogLvl) as [[ColorStr unknown]|]; [|exists []; exact Hid].
    destruct (vprintf_scan Msg va IntStr) as [cs e] eqn:Hscan.
    cbv zeta.
    destruct unknown; (rewrite vprintf_ready by exact n); rewrite Hscan; cbn [fst snd];
      destruct e; cbn [fst]; rewrite !put_put; eexists; reflexivity.
Qed.

Lemma do_call_shape st c :
  exists out,
    sink (do_call st c) = sink st ++ out /\
    (Logger_InitDone st <> 0 -> Logger_InitDone (do_call st c) <> 0).
Proof.
  destruct c; cbn [do_call].
  - unfold RML_COMM_LoggerInit. exists [].
    destruct ((BaudRate >? MaxBaudrate) || (BaudRate =? 0)); cbn [snd sink Logger_InitDone];
      rewrite app_nil_r; split; try reflexivity; try lia; auto.
  - unfold RML_COMM_LogLevelSet. exists []. rewrite app_nil_r.
    destruct (Logger_InitDone st =? 0); [split; [reflexivity | auto]|].
    cbv zeta.
    repeat match goal with
      | |- context [Z.eqb LogLvl ?c] => destruct (Z.eqb LogLvl c)
      end; split; try reflexivity; auto.
  - unfold RML_COMM_printf. destruct (Z.eqb_spec (Logger_InitDone st) 0).
    + exists []. rewrite app_nil_r. split; [reflexivity | auto].
    + destruct (vprintf_shape st InputStr VaList IntStr) as (out & ->).
      exists out. split; [reflexivity | auto].
  - destruct (vprintf_shape st InputStr VaList IntStr) as (out & ->).
    exists out. split; [reflexivity | auto].
  - destruct (LogMsg_shape st Src LogLvl Msg VaList IntStr) as (out & ->).
    exists out. split; [reflexivity | auto].
Qed.


(** X21: initialisation is permanent: once the flag is set, no run of calls
    clears it, a later RML_COMM_LoggerInit with a rejected baud rate
    included. *)
Theorem init_is_permanent st cs :
  Logger_InitDone st <> 0 -> Logger_InitDone (do_calls st cs) <> 0.
Proof.
  unfold do_calls. revert st. induction cs as [|c cs IH]; intros st H; cbn [fold_left].
  - exact H.
  - apply IH. destruct (do_call_shape st c) as (out & _ & Hk). apply Hk. exact H.
Qed.

Lemma init_is_permanent_witness :
  Logger_InitDone
    (do_calls (mkLogger 1 [1; 1; 1; 1; 1] [])
       [CallInit 0; CallLevelSet 9 1; CallPrintf (codes "x") [] (fun _ => 0)]) <> 0.
Proof.
  apply (init_is_permanent (mkLogger 1 [1; 1; 1; 1; 1] [])
           [CallInit 0; CallLevelSet 9 1; CallPrintf (codes "x") [] (fun _ => 0)]).
  discriminate.
Defined.

(** X22: RML_COMM_LoggerInit with a baud rate from 1 to 115200 returns 0,
    writes nothing, and opens the gate: RML_COMM_printf and RML_COMM_vprintf
    then send to the sink exactly what the scanner produces for the format. *)
Theorem LoggerInit_opens_gate st BaudRate InputStr va IntStr :
  1 <= BaudRate <= 115200 ->
  exists st1,
    RML_COMM_LoggerInit st BaudRate = (0, st1) /\
    sink st1 = sink st /\
    RML_COMM_printf st1 InputStr va IntStr =
      (put st1 (fst (vprintf_scan InputStr va IntStr)),
       snd (vprintf_scan InputStr va IntStr)) /\
    RML_COMM_vprintf st1 InputStr va IntStr = RML_COMM_printf st1 InputStr va IntStr.
Proof.
  intros Hok. unfold RML_COMM_LoggerInit, MaxBaudrate.
  destruct (Z.gtb_spec BaudRate 115200); [lia|].
  destruct (Z.eqb_spec BaudRate 0); [lia|]. cbn [orb].
  eexists. split; [reflexivity|]. split; [reflexivity|].
  unfold RML_COMM_printf. cbn [Logger_InitDone Z.eqb].
  split; [|reflexivity].
  apply vprintf_ready. cbn [Logger_InitDone]. discriminate.
Qed.

Lemma LoggerInit_opens_gate_witness :
  exists st1,
    RML_COMM_LoggerInit power_on 9600 = (0, st1) /\
    sink st1 = sink power_on /\
    RML_COMM_printf st1 (codes "up") [] (fun _ => 0) =
      (put st1 (fst (vprintf_scan (codes "up") [] (fun _ => 0))),
       snd (vprintf_scan (codes "up") [] (fun _ => 0))) /\
    RML_COMM_vprintf st1 (codes "up") [] (fun _ => 0)
    = RML_COMM_printf st1 (codes "up") [] (fun _ => 0).
Proof.
  apply (LoggerInit_opens_gate power_on 9600 (codes "up") [] (fun _ => 0)). lia.
Defined.

(** ** _RML_COMM_Assert *)

(** X23: a failed assertion is silent when the logger is not initialised or
    the FATAL level is switched off: the function enters its endless loop
    without having written anything. *)
Theorem Assert_can_hang_silently st FileName LineNumber IntStr :
  Logger_InitDone st = 0 \/ nth 4 (LogLevelsEnable st) 0 = 0 ->
  _RML_COMM_Assert st FileName LineNumber IntStr = (st, Returned).
Proof.
  intros H. unfold _RML_COMM_Assert, RML_COMM_LogMsg.
  destruct (Z.eqb_spec (Logger_InitDone st) 0) as [|Hinit]; [reflexivity|].
  destruct H as [H|H]; [contradiction|].
  rewrite (level_gate_disabled st e_FATAL); [reflexivity | unfold e_FATAL; lia | exact H].
Qed.

Lemma Assert_can_hang_silently_witness :
  _RML_COMM_Assert (mkLogger 1 [1; 1; 1; 1; 0] []) (codes "main.c") 42 (fun _ => 0)
  = (mkLogger 1 [1; 1; 1; 1; 0] [], Returned).
Proof.
  apply (Assert_can_hang_silently (mkLogger 1 [1; 1; 1; 1; 0] []) (codes "main.c") 42
           (fun _ => 0)).
  right. reflexivity.
Defined.

(** X24: with the logger initialised and FATAL enabled, a failed assertion
    writes one FATAL line that names the file as given and the line number
    in decimal, before the function enters its endless loop. *)
Theorem Assert_reports_file_and_line st FileName LineNumber IntStr :
  Logger_InitDone st <> 0 -> nth 4 (LogLevelsEnable st) 0 <> 0 ->
  _RML_COMM_Assert st FileName LineNumber IntStr =
  (put st (codes "> [FATAL] RML_ASSERT: ASSERTION FAILED:" ++ [13; 10; 9]
           ++ codes "--> File: " ++ FileName ++ [13; 10; 9]
           ++ codes "--> Line: " ++ rev (utoa_chars 10 (uint32 LineNumber)) ++ [13; 10]),
   Returned).
Proof.
  intros Hinit Hen. unfold _RML_COMM_Assert.
  assert (Hscan : vprintf_scan Assert_Msg [VaStr FileName; VaInt LineNumber] IntStr =
                  (codes "ASSERTION FAILED:" ++ [13; 10; 9] ++ codes "--> File: " ++ FileName
                   ++ [13; 10; 9] ++ codes "--> Line: "
                   ++ rev (utoa_chars 10 (uint32 LineNumber)), Returned)).
  { change Assert_Msg with
      ((codes "ASSERTION FAILED:" ++ [13; 10; 9] ++ codes "--> File: ")
       ++ code "%" :: code "s"
       :: (([13; 10; 9] ++ codes "--> Line: ") ++ code "%" :: code "u" :: [])).
    rewrite scan_literal_app by (repeat constructor; discriminate).
    scan_step.
    rewrite scan_literal_app by (repeat constructor; discriminate).
    destruct (scan_u_emit LineNumber [] [] IntStr) as (IntStr' & ->).
    unfold emit. cbn [vprintf_scan fst snd]. rewrite app_nil_r. reflexivity. }
  rewrite (LogMsg_line_format_aux st (codes "RML_ASSERT") e_FATAL Assert_Msg
             [VaStr FileName; VaInt LineNumber] IntStr _ Hinit
             ltac:(unfold e_FATAL; lia) Hen Hscan).
  f_equal. f_equal. change (nth (Z.to_nat e_FATAL) LogLevel_Str EmptyString) with "FATAL"%string.
  rewrite <- !app_assoc. reflexivity.
Qed.

Lemma Assert_reports_file_and_line_witness :
  _RML_COMM_Assert (mkLogger 1 [1; 1; 1; 1; 1] []) (codes "main.c") 42 (fun _ => 0) =
  (put (mkLogger 1 [1; 1; 1; 1; 1] [])
     (codes "> [FATAL] RML_ASSERT: ASSERTION FAILED:" ++ [13; 10; 9]
      ++ codes "--> File: " ++ codes "main.c" ++ [13; 10; 9]
      ++ codes "--> Line: " ++ rev (utoa_chars 10 (uint32 42)) ++ [13; 10]),
   Returned).
Proof.
  apply (Assert_reports_file_and_line (mkLogger 1 [1; 1; 1; 1; 1] []) (codes "main.c") 42
           (fun _ => 0)); discriminate.
Defined.
